(** * PmdkLogger: an append-only text logger on a persistent-memory mapping

    Shallow embedding of [util/pmdk_logger.h] (class [leveldb::PmdkLogger])
    and the properties of its constructor, of [Logv] and of its destructor.

    Conventions.
    - [size_t] values ([length_], [now_off_], requested sizes) are integers
      in [Z]; every [size_t] addition of the source is written with
      [wrap64], its reduction modulo 2^64.
    - [int] values ([buffer_offset], [buffer_size], ...) are integers in [Z];
      where the source would overflow a signed [int] the embedding stops
      with [Undef].
    - [assert] follows the build: with [NDEBUG] it is skipped, without it a
      false condition stops the call with [Abort].
    - [new char[n]] is taken to succeed, and so is the formatter: the
      value [std::vsnprintf] returns is the length of the expansion.
    - The address [mmap_base_ + now_off_] handed to [pmem_memcpy] is the
      sum in [Z]; the statements about the copy are made where the
      [size_t] sums of the source do not wrap.
    - The C library and libpmem are not part of the logger.  The formatter
      is given by a small model of [std::snprintf]; the mapping service
      [pmem_map_file] is a parameter of the development; every call made to
      libpmem or to the allocator is recorded, in order, in a trace. *)

From Stdlib Require Import ZArith Ascii String Bool Lia List.
Import ListNotations.

Local Open Scope Z_scope.

(** ** Characters and decimal rendering *)

Module Printf.

Definition NUL : ascii := Ascii.zero.
Definition LF : ascii := "010"%char.
Definition SP : ascii := " "%char.

Definition chars (s : string) : list ascii := list_ascii_of_string s.

Definition digit (d : Z) : ascii := ascii_of_nat (48 + Z.to_nat d).

Definition is_digit (c : ascii) : bool :=
  let n := nat_of_ascii c in (48 <=? n)%nat && (n <=? 57)%nat.

Definition digit_value (c : ascii) : Z := Z.of_nat (nat_of_ascii c) - 48.

(** Decimal digits of a non-negative number, least significant first. *)
Fixpoint digits_rev (fuel : nat) (n : Z) : list ascii :=
  match fuel with
  | O => []
  | S fuel' =>
      digit (n mod 10) ::
      (if n / 10 =? 0 then [] else digits_rev fuel' (n / 10))
  end.

Definition decimal (n : Z) : list ascii :=
  rev (digits_rev (S (Z.to_nat (Z.log2 n))) n).

(** Arguments of a formatting call, as far as the logger and its callers
    here use them: [int] for [%d], C string for [%s]. *)
Inductive arg : Type :=
| ArgInt (n : Z)
| ArgStr (s : string).

(** [%d] with an optional [0] flag and a minimum field width. *)
Definition fmt_d (zero : bool) (width : Z) (n : Z) : list ascii :=
  let sign := if n <? 0 then ["-"%char] else [] in
  let ds := decimal (Z.abs n) in
  let pad := Z.to_nat (width - Z.of_nat (length sign + length ds)) in
  if zero then sign ++ repeat "0"%char pad ++ ds
  else repeat SP pad ++ sign ++ ds.

(** [%s] with a minimum field width. *)
Definition fmt_s (width : Z) (s : string) : list ascii :=
  let cs := chars s in
  repeat SP (Z.to_nat (width - Z.of_nat (length cs))) ++ cs.

(** State of the directive scanner: copying literal text, or inside a
    conversion specification after ['%']. *)
Inductive scan : Type :=
| Text
| Spec (zero : bool) (width : option Z).

(** The text a format and its arguments expand to.  Supported directives:
    [%%], [%d] and [%s] with an optional [0] flag and width.  A directive
    outside this fragment, or one whose argument is missing or of the wrong
    kind, expands to nothing (C leaves such calls undefined). *)
Fixpoint expand (st : scan) (fmt : list ascii) (args : list arg)
  : list ascii :=
  match fmt with
  | [] => []
  | c :: fmt' =>
      match st with
      | Text =>
          if Ascii.eqb c "%"%char then expand (Spec false None) fmt' args
          else c :: expand Text fmt' args
      | Spec zero width =>
          if Ascii.eqb c "%"%char then c :: expand Text fmt' args
          else if Ascii.eqb c "0"%char && negb zero
                  && match width with None => true | Some _ => false end
          then expand (Spec true None) fmt' args
          else if is_digit c then
            let w := match width with None => 0 | Some w => w end in
            expand (Spec zero (Some (10 * w + digit_value c))) fmt' args
          else
            let w := match width with None => 0 | Some w => w end in
            if Ascii.eqb c "d"%char then
              match args with
              | ArgInt n :: args' => fmt_d zero w n ++ expand Text fmt' args'
              | _ => expand Text fmt' args
              end
            else if Ascii.eqb c "s"%char then
              match args with
              | ArgStr s :: args' => fmt_s w s ++ expand Text fmt' args'
              | _ => expand Text fmt' args
              end
            else expand Text fmt' args
      end
  end.

Definition render (format : string) (args : list arg) : list ascii :=
  expand Text (chars format) args.

(** Overwrite [buf] from index [pos] with [data]; the array keeps its
    length (what falls past the end is dropped). *)
Definition write_at (buf : list ascii) (pos : nat) (data : list ascii)
  : list ascii :=
  firstn pos buf
  ++ firstn (length buf - pos) data
  ++ skipn (pos + length data) buf.

(** [std::snprintf(buf + pos, size, format, args...)]: at most [size - 1]
    characters of the expansion are stored, then a terminating NUL; the
    value returned is the length of the whole expansion.  With [size = 0]
    nothing is stored. *)
Definition snprintf (buf : list ascii) (pos : Z) (size : Z)
    (format : string) (args : list arg) : list ascii * Z :=
  let out := render format args in
  let buf' :=
    if 0 <? size
    then write_at buf (Z.to_nat pos)
                  (firstn (Z.to_nat (size - 1)) out ++ [NUL])
    else buf in
  (buf', Z.of_nat (length out)).

End Printf.

Import Printf.

(** ** The logger, its environment and the outcome of a call *)

(** Flags of libpmem the logger passes. *)
Inductive map_flag : Type := PMEM_FILE_CREATE | PMEM_FILE_SPARSE.
Inductive copy_flag : Type := PMEM_F_MEM_NONTEMPORAL.

(** Calls the logger makes to the allocator and to libpmem. *)
Inductive event : Type :=
| EvNew (size : Z)                       (* new char[size] *)
| EvDelete                               (* delete[] buffer *)
| EvUnmap (addr : Z) (len : Z)           (* pmem_unmap *)
| EvMapFile (path : string) (len : Z) (flags : list map_flag) (mode : Z)
                                         (* pmem_map_file *)
| EvMemcpy (dest : Z) (src : list ascii) (flags : copy_flag).
                                         (* pmem_memcpy *)

(** What lies outside the logger: the build mode, the content of memory
    that was never written, and the mapping service.  [pmem_map_file] may
    depend on everything that happened before; it yields the base address
    and the value stored through [mapped_lenp]. *)
Class Platform : Type := {
  NDEBUG : bool;
  uninit : nat -> ascii;
  pmem_map_file :
    list event -> string -> Z -> list map_flag -> Z -> Z * Z
}.

(** Private members of [PmdkLogger]. *)
Record PmdkLogger : Type := mkLogger {
  filename_ : string;
  mmap_base_ : Z;
  length_ : Z;
  now_off_ : Z
}.

(** The world the logger acts on: the calls made so far, oldest first, and
    the bytes of the backing file by file offset.  A mapping of the file is
    shared, so a store at [mmap_base_ + off] is a store at offset [off] of
    the file, and the bytes survive unmapping and remapping. *)
Record World : Type := mkWorld {
  calls : list event;
  media : Z -> ascii
}.

Inductive outcome (A : Type) : Type :=
| Ret (a : A)
| Abort      (* an assert failed in a build without NDEBUG *)
| Undef      (* signed overflow or a negative size: not defined by C++ *)
| NoFuel.    (* the growth loop was still running when the fuel ran out *)

Arguments Ret {A} a.
Arguments Abort {A}.
Arguments Undef {A}.
Arguments NoFuel {A}.

Definition bind {A B : Type} (m : outcome A) (k : A -> outcome B)
  : outcome B :=
  match m with
  | Ret a => k a
  | Abort => Abort
  | Undef => Undef
  | NoFuel => NoFuel
  end.

Notation "x <- m ;; k" := (bind m (fun x => k))
  (at level 61, m at next level, right associativity).
Notation "m ;;; k" := (bind m (fun _ => k))
  (at level 61, right associativity).

Definition two64 : Z := 2 ^ 64.
Definition wrap64 (z : Z) : Z := z mod two64.
Definition INT_MAX : Z := 2147483647.

Definition int_add (a b : Z) : outcome Z :=
  if a + b <=? INT_MAX then Ret (a + b) else Undef.

Definition emit (e : event) (w : World) : World :=
  mkWorld (calls w ++ [e]) (media w).

(** Bytes [data] stored from file offset [off] on. *)
Definition store (m : Z -> ascii) (off : Z) (data : list ascii)
  : Z -> ascii :=
  fun a =>
    if (off <=? a) && (a <? off + Z.of_nat (length data))
    then nth (Z.to_nat (a - off)) data NUL
    else m a.

(** The [n] bytes of the file from offset [off] on. *)
Definition load (m : Z -> ascii) (off : Z) (n : nat) : list ascii :=
  map (fun i => m (off + Z.of_nat i)) (seq 0 n).

(** Broken-down local time and microseconds, as [gettimeofday] and
    [localtime_r] deliver them. *)
Record tm : Type := mkTm {
  tm_year : Z; tm_mon : Z; tm_mday : Z;
  tm_hour : Z; tm_min : Z; tm_sec : Z
}.

Record instant : Type := mkInstant {
  now_components : tm;
  tv_usec : Z
}.

Definition kMaxThreadIdSize : Z := 32.
Definition kStackBufferSize : Z := 512.
Definition kGrowth : Z := 32 * 1024 * 1024.
Definition mode_0666 : Z := 438.

Definition header_format : string :=
  "%04d/%02d/%02d-%02d:%02d:%02d.%06d %s ".

Definition header_args (now : instant) (thread_id : string) : list arg :=
  [ArgInt (tm_year (now_components now) + 1900);
   ArgInt (tm_mon (now_components now) + 1);
   ArgInt (tm_mday (now_components now));
   ArgInt (tm_hour (now_components now));
   ArgInt (tm_min (now_components now));
   ArgInt (tm_sec (now_components now));
   ArgInt (tv_usec now);
   ArgStr thread_id].

(** [if (thread_id.size() > kMaxThreadIdSize) thread_id.resize(...)] *)
Definition clip_thread_id (thread_id : string) : string :=
  if kMaxThreadIdSize <? Z.of_nat (String.length thread_id)
  then substring 0 (Z.to_nat kMaxThreadIdSize) thread_id
  else thread_id.

(** One call of [Logv]: the captured time, the text of the thread id, the
    format and its arguments. *)
Record LogCall : Type := mkCall {
  c_now : instant;
  c_thread : string;
  c_format : string;
  c_arguments : list arg
}.

(** Outcome of one pass of the [for] loop of [Logv]. *)
Inductive loop_ctl : Type :=
| Continue (dynamic_buffer_size : Z)
| Break.

Section Model.

Context {P : Platform}.

Definition assert (c : bool) : outcome unit :=
  if NDEBUG then Ret tt else if c then Ret tt else Abort.

Definition fresh_buffer (size : Z) : list ascii :=
  map uninit (seq 0 (Z.to_nat size)).

(** Constructor. *)
Definition PmdkLogger_new (filename : string) (mmap_base : Z) (length : Z)
    (existing : bool) : outcome PmdkLogger :=
  let self :=
    mkLogger filename mmap_base length (if existing then length else 0) in
  assert (negb (mmap_base_ self =? 0)) ;;;
  Ret self.

(** Destructor. *)
Definition PmdkLogger_delete (self : PmdkLogger) (w : World)
  : PmdkLogger * World :=
  if negb (mmap_base_ self =? 0) then
    let w := emit (EvUnmap (mmap_base_ self) (length_ self)) w in
    let request := wrap64 (now_off_ self + 1) in
    let '(base, new_size) :=
      pmem_map_file (calls w) (filename_ self) request
                    [PMEM_FILE_CREATE] mode_0666 in
    let w := emit (EvMapFile (filename_ self) request
                             [PMEM_FILE_CREATE] mode_0666) w in
    let self := mkLogger (filename_ self) base new_size (now_off_ self) in
    let w := emit (EvUnmap (mmap_base_ self) (length_ self)) w in
    (self, w)
  else (self, w).

(** Body of the [while] loop of [Logv]. *)
Definition grow_step (self : PmdkLogger) (w : World) : PmdkLogger * World :=
  let w := emit (EvUnmap (mmap_base_ self) (length_ self)) w in
  let request := wrap64 (length_ self + kGrowth) in
  let '(base, new_size) :=
    pmem_map_file (calls w) (filename_ self) request
                  [PMEM_FILE_CREATE; PMEM_FILE_SPARSE] mode_0666 in
  let w := emit (EvMapFile (filename_ self) request
                           [PMEM_FILE_CREATE; PMEM_FILE_SPARSE] mode_0666) w in
  (mkLogger (filename_ self) base new_size (now_off_ self), w).

(** Condition of the [while] loop of [Logv]. *)
Definition needs_growth (buffer_offset : Z) (self : PmdkLogger) : bool :=
  length_ self <? wrap64 (now_off_ self + buffer_offset).

(** [while (now_off_ + buffer_offset > length_) { ... }] *)
Fixpoint grow_loop (fuel : nat) (buffer_offset : Z) (self : PmdkLogger)
    (w : World) : outcome (PmdkLogger * World) :=
  if needs_growth buffer_offset self then
    match fuel with
    | O => NoFuel
    | S fuel' =>
        let '(self', w') := grow_step self w in
        grow_loop fuel' buffer_offset self' w'
    end
  else Ret (self, w).

(** "Add a newline if necessary." *)
Definition add_newline (buffer : list ascii) (buffer_offset : Z)
  : list ascii * Z :=
  if negb (Ascii.eqb (nth (Z.to_nat (buffer_offset - 1)) buffer NUL) LF)
  then (write_at buffer (Z.to_nat buffer_offset) [LF], buffer_offset + 1)
  else (buffer, buffer_offset).

(** [pmem_memcpy(mmap_base_ + now_off_, buffer, buffer_offset, ...)]
    followed by [now_off_ += buffer_offset]. *)
Definition commit (buffer : list ascii) (buffer_offset : Z)
    (self : PmdkLogger) (w : World) : PmdkLogger * World :=
  let src := firstn (Z.to_nat buffer_offset) buffer in
  let w := mkWorld
    (calls w ++ [EvMemcpy (mmap_base_ self + now_off_ self) src
                          PMEM_F_MEM_NONTEMPORAL])
    (store (media w) (now_off_ self) src) in
  (mkLogger (filename_ self) (mmap_base_ self) (length_ self)
            (wrap64 (now_off_ self + buffer_offset)), w).

(** End of a pass of [Logv], from "Add a newline if necessary" to [break]. *)
Definition Logv_write (fuel : nat) (iteration : Z) (buffer : list ascii)
    (buffer_offset buffer_size : Z) (self : PmdkLogger) (w : World)
  : outcome (loop_ctl * (PmdkLogger * World)) :=
  let '(buffer, buffer_offset) := add_newline buffer buffer_offset in
  assert (buffer_offset <=? buffer_size) ;;;
  s <- grow_loop fuel buffer_offset self w ;;
  let '(self, w) := commit buffer buffer_offset (fst s) (snd s) in
  let w := if negb (iteration =? 0) then emit EvDelete w else w in
  Ret (Break, (self, w)).

(** One pass of the [for] loop of [Logv]. *)
Definition Logv_pass (fuel : nat) (now : instant) (thread_id : string)
    (format : string) (arguments : list arg)
    (iteration dynamic_buffer_size : Z) (self : PmdkLogger) (w : World)
  : outcome (loop_ctl * (PmdkLogger * World)) :=
  let buffer_size :=
    if iteration =? 0 then kStackBufferSize else dynamic_buffer_size in
  let buffer := fresh_buffer buffer_size in
  let w := if iteration =? 0 then w else emit (EvNew dynamic_buffer_size) w in
  let '(buffer, buffer_offset) :=
    snprintf buffer 0 buffer_size header_format (header_args now thread_id) in
  assert (buffer_offset <=? 28 + kMaxThreadIdSize) ;;;
  assert (buffer_offset <? buffer_size) ;;;
  if buffer_size - buffer_offset <? 0 then Undef else
  let '(buffer, printed) :=
    snprintf buffer buffer_offset (buffer_size - buffer_offset)
             format arguments in
  buffer_offset <- int_add buffer_offset printed ;;
  if buffer_size - 1 <=? buffer_offset then
    if iteration =? 0 then
      dynamic_buffer_size <- int_add buffer_offset 2 ;;
      Ret (Continue dynamic_buffer_size, (self, w))
    else
      assert false ;;;
      Logv_write fuel iteration buffer (buffer_size - 1) buffer_size self w
  else
    Logv_write fuel iteration buffer buffer_offset buffer_size self w.

(** [Logv(format, arguments)] at the captured time and thread. *)
Definition Logv (fuel : nat) (c : LogCall) (self : PmdkLogger) (w : World)
  : outcome (PmdkLogger * World) :=
  let thread_id := clip_thread_id (c_thread c) in
  r <- Logv_pass fuel (c_now c) thread_id (c_format c) (c_arguments c)
                 0 0 self w ;;
  match r with
  | (Break, s) => Ret s
  | (Continue dynamic_buffer_size, (self, w)) =>
      r <- Logv_pass fuel (c_now c) thread_id (c_format c) (c_arguments c)
                     1 dynamic_buffer_size self w ;;
      Ret (snd r)
  end.

(** Calls of [Logv] one after the other. *)
Fixpoint Logv_all (fuel : nat) (cs : list LogCall) (self : PmdkLogger)
    (w : World) : outcome (PmdkLogger * World) :=
  match cs with
  | [] => Ret (self, w)
  | c :: cs' =>
      s <- Logv fuel c self w ;;
      Logv_all fuel cs' (fst s) (snd s)
  end.

End Model.

(** ** Vocabulary of the statements *)

(** Time as [localtime_r] delivers it for a year of four digits. *)
Definition valid_instant (now : instant) : Prop :=
  0 <= tm_year (now_components now) + 1900 <= 9999 /\
  0 <= tm_mon (now_components now) <= 11 /\
  1 <= tm_mday (now_components now) <= 31 /\
  0 <= tm_hour (now_components now) <= 23 /\
  0 <= tm_min (now_components now) <= 59 /\
  0 <= tm_sec (now_components now) <= 60 /\
  0 <= tv_usec now <= 999999.

(** The header and the message of a call, as the formatter expands them. *)
Definition header (c : LogCall) : list ascii :=
  render header_format (header_args (c_now c) (clip_thread_id (c_thread c))).

Definition message (c : LogCall) : list ascii :=
  render (c_format c) (c_arguments c).

(** Formatted length of a call: header plus body. *)
Definition formatted_length (c : LogCall) : Z :=
  Z.of_nat (length (header c ++ message c)).

(** The record of a call: header, message, and a line break unless the
    text before it already ends in one. *)
Definition record (c : LogCall) : list ascii :=
  let text := header c ++ message c in
  if Ascii.eqb (last text NUL) LF then text else text ++ [LF].

Definition record_length (c : LogCall) : Z := Z.of_nat (length (record c)).

Fixpoint total_length (cs : list LogCall) : Z :=
  match cs with
  | [] => 0
  | c :: cs' => record_length c + total_length cs'
  end.

(** A call the embedding covers: a valid time and a text whose length,
    with the two spare bytes, is an [int]. *)
Definition valid_call (c : LogCall) : Prop :=
  valid_instant (c_now c) /\ formatted_length c + 2 <= INT_MAX.

(** Number of line breaks at the end of a text. *)
Fixpoint trailing_breaks_rev (rev_text : list ascii) : nat :=
  match rev_text with
  | c :: rest => if Ascii.eqb c LF then S (trailing_breaks_rev rest) else O
  | [] => O
  end.

Definition trailing_breaks (text : list ascii) : nat :=
  trailing_breaks_rev (rev text).

(** [text] has the shape of [pattern]: a letter of the pattern stands for
    one decimal digit, any other character for itself. *)
Definition is_letter (c : ascii) : bool :=
  let n := nat_of_ascii c in (65 <=? n)%nat && (n <=? 90)%nat.

Fixpoint has_shape (pattern text : list ascii) : bool :=
  match pattern, text with
  | [], [] => true
  | p :: pattern', c :: text' =>
      (if is_letter p then is_digit c else Ascii.eqb p c)
      && has_shape pattern' text'
  | _, _ => false
  end.

Definition stamp_pattern : list ascii := chars "YYYY/MM/DD-HH:MM:SS.UUUUUU".

Section Vocabulary.

Context {P : Platform}.

(** Contract of the mapping service: the size it reports is at least the
    size requested. *)
Definition map_at_least : Prop :=
  forall tr path len flags mode,
    0 <= len -> len <= snd (pmem_map_file tr path len flags mode).

(** The mapping service reports exactly the size requested. *)
Definition map_exact : Prop :=
  forall tr path len flags mode,
    snd (pmem_map_file tr path len flags mode) = len.

(** Mapped capacity is at least the logical offset. *)
Definition capacity_covers (self : PmdkLogger) : Prop :=
  0 <= now_off_ self <= length_ self.

(** State after [k] rounds of the growth loop. *)
Fixpoint grow_n (k : nat) (self : PmdkLogger) (w : World)
  : PmdkLogger * World :=
  match k with
  | O => (self, w)
  | S k' => let '(self', w') := grow_n k' self w in grow_step self' w'
  end.

(** The libpmem calls of round [j] of the growth loop started at [self]. *)
Definition growth_calls (self : PmdkLogger) (w : World) (j : nat)
  : list event :=
  let self_j := fst (grow_n j self w) in
  [EvUnmap (mmap_base_ self_j) (length_ self_j);
   EvMapFile (filename_ self) (length_ self_j + kGrowth)
             [PMEM_FILE_CREATE; PMEM_FILE_SPARSE] mode_0666].

(** Calls to the allocator. *)
Definition heap_event (e : event) : bool :=
  match e with
  | EvNew _ | EvDelete => true
  | _ => false
  end.

(** What a pass leaves once the capacity suffices: the record stored at
    the logical offset, the offset advanced, and a dynamic buffer
    released. *)
Definition written (dynamic : bool) (c : LogCall) (s : PmdkLogger * World)
  : PmdkLogger * World :=
  let '(self, w) := commit (record c) (record_length c) (fst s) (snd s) in
  (self, if dynamic then emit EvDelete w else w).

End Vocabulary.

(** ** Sample platforms and calls *)

(** A mapping service that maps at a fixed address and reports exactly the
    size requested, as libpmem does for a regular file. *)
Definition exact_platform (ndebug : bool) : Platform :=
  {| NDEBUG := ndebug;
     uninit := fun _ => "?"%char;
     pmem_map_file := fun _ _ len _ _ => (65536, len) |}.

(** A mapping service that rounds the size up to whole pages of 4096
    bytes. *)
Definition paged_platform : Platform :=
  {| NDEBUG := true;
     uninit := fun _ => NUL;
     pmem_map_file :=
       fun _ _ len _ _ => (65536, 4096 * ((len + 4095) / 4096)) |}.

Definition sample_instant : instant :=
  mkInstant (mkTm 126 9 30 8 5 59) 1234.

Definition sample_call : LogCall :=
  mkCall sample_instant "140213" "%s=%d" [ArgStr "x"; ArgInt 5].

(** A message that ends in two line breaks, and a long one that does. *)
Definition two_breaks : string := String LF (String LF EmptyString).

Definition double_break_call : LogCall :=
  mkCall sample_instant "140213" (String "a"%char two_breaks) [].

Definition long_double_break_call : LogCall :=
  mkCall sample_instant "140213" ("%0600d" ++ two_breaks)%string [ArgInt 7].

(** A call whose message is empty. *)
Definition empty_call : LogCall := mkCall sample_instant "140213" "" [].

(** Loggers as the constructor leaves them: a fresh region of one page and
    a reopened region of 100 bytes. *)
Definition fresh_logger : PmdkLogger := mkLogger "LOG" 65536 4096 0.

Definition reopened_logger : PmdkLogger := mkLogger "LOG" 65536 100 100.

Definition blank_media : Z -> ascii := fun _ => NUL.

Definition empty_world : World := mkWorld [] blank_media.

(** The reopened logger after disposal. *)
Definition disposed_once : PmdkLogger * World :=
  @PmdkLogger_delete (exact_platform false) reopened_logger empty_world.

(** A mapping service that maps nothing: it yields a null base and
    reports a size of 0. *)
Definition stalled_platform : Platform :=
  {| NDEBUG := false;
     uninit := fun _ => NUL;
     pmem_map_file := fun _ _ _ _ _ => (0, 0) |}.

(** The exact mapping service in a build with [NDEBUG], with memory that
    holds arbitrary bytes before it is written. *)
Definition scrambled_platform : Platform :=
  {| NDEBUG := true;
     uninit := fun i => ascii_of_nat i;
     pmem_map_file := fun _ _ len _ _ => (65536, len) |}.

(** The number a text of decimal digits stands for, and the part of a text
    of [n] characters from index [off] on. *)
Definition decimal_value (ds : list ascii) : Z :=
  fold_left (fun acc c => 10 * acc + digit_value c) ds 0.

Definition slice (off n : nat) (text : list ascii) : list ascii :=
  firstn n (skipn off text).

(** ** The formatter *)

Example render_header_sample :
  render "%04d/%02d/%02d-%02d:%02d:%02d.%06d %s "
         [ArgInt 2026; ArgInt 3; ArgInt 9; ArgInt 7; ArgInt 5; ArgInt 0;
          ArgInt 42; ArgStr "140213"]
  = chars "2026/03/09-07:05:00.000042 140213 ".
Proof. vm_compute. reflexivity. Qed.

Example render_message_sample :
  render "%s=%d" [ArgStr "x"; ArgInt 5] = chars "x=5".
Proof. vm_compute. reflexivity. Qed.

Example render_negative_sample :
  render "[%04d|%4d|%d%%]" [ArgInt (-7); ArgInt 12; ArgInt 0]
  = chars "[-007|  12|0%]".
Proof. vm_compute. reflexivity. Qed.

Example record_sample :
  record sample_call = chars "2026/10/30-08:05:59.001234 140213 x=5" ++ [LF].
Proof. vm_compute. reflexivity. Qed.

Lemma digit_is_digit (d : Z) : 0 <= d < 10 -> is_digit (digit d) = true.
Proof.
  intros H.
  assert (d = 0 \/ d = 1 \/ d = 2 \/ d = 3 \/ d = 4 \/ d = 5 \/ d = 6
          \/ d = 7 \/ d = 8 \/ d = 9) as E by lia.
  repeat (destruct E as [-> | E]; [reflexivity |]).
  subst d; reflexivity.
Qed.

Lemma digits_rev_digits (fuel : nat) :
  forall n, 0 <= n -> forallb is_digit (digits_rev fuel n) = true.
Proof.
  induction fuel as [| fuel IH]; intros n Hn; cbn [digits_rev forallb];
    [reflexivity |].
  rewrite digit_is_digit by (apply Z.mod_pos_bound; lia).
  destruct (n / 10 =? 0); cbn [forallb andb]; [reflexivity |].
  apply IH. apply Z.div_pos; lia.
Qed.

Lemma digits_rev_length (fuel : nat) :
  forall n k, 0 <= n < 10 ^ Z.of_nat (S k) ->
    (1 <= length (digits_rev (S fuel) n) <= S k)%nat.
Proof.
  induction fuel as [| fuel IH]; intros n k Hn.
  - cbn [digits_rev]. destruct (n / 10 =? 0); cbn [length]; lia.
  - change (digits_rev (S (S fuel)) n)
      with (digit (n mod 10) ::
            (if n / 10 =? 0 then [] else digits_rev (S fuel) (n / 10))).
    destruct (n / 10 =? 0) eqn:E; cbn [length]; [lia |].
    apply Z.eqb_neq in E.
    destruct k as [| k].
    + exfalso. apply E. apply Z.div_small. change (10 ^ Z.of_nat 1) with 10 in Hn. lia.
    + assert (0 <= n / 10 < 10 ^ Z.of_nat (S k)) as Hq.
      { split; [apply Z.div_pos; lia |].
        apply Z.div_lt_upper_bound; [lia |].
        replace (Z.of_nat (S (S k))) with (1 + Z.of_nat (S k)) in Hn by lia.
        rewrite Z.pow_add_r in Hn by lia. lia. }
      specialize (IH (n / 10) k Hq). lia.
Qed.

Lemma zeros_are_digits (p : nat) :
  forallb is_digit (repeat "0"%char p) = true.
Proof.
  induction p as [| p IHp]; cbn [repeat forallb];
    [reflexivity | rewrite IHp; reflexivity].
Qed.

(** A number below [10 ^ w] printed with [%0wd] is exactly [w] digits. *)
Lemma fmt_d_fixed (w : nat) (n : Z) :
  0 <= n < 10 ^ Z.of_nat (S w) ->
  length (fmt_d true (Z.of_nat (S w)) n) = S w /\
  forallb is_digit (fmt_d true (Z.of_nat (S w)) n) = true.
Proof.
  intros Hn. unfold fmt_d.
  replace (n <? 0) with false by (symmetry; apply Z.ltb_ge; lia).
  rewrite Z.abs_eq by lia. unfold decimal.
  pose proof (digits_rev_length (Z.to_nat (Z.log2 n)) n w Hn) as Hl.
  pose proof (digits_rev_digits (S (Z.to_nat (Z.log2 n))) n (proj1 Hn)) as Hd.
  set (ds := digits_rev (S (Z.to_nat (Z.log2 n))) n) in *.
  cbn [app length Nat.add]. split.
  - rewrite length_app, repeat_length, length_rev. lia.
  - rewrite forallb_app. apply andb_true_iff. split.
    + apply zeros_are_digits.
    + rewrite forallb_forall in *. intros c Hc. apply Hd.
      apply in_rev. exact Hc.
Qed.

Lemma header_unfold (now : instant) (thread_id : string) :
  render header_format (header_args now thread_id)
  = fmt_d true 4 (tm_year (now_components now) + 1900)
    ++ "/"%char :: fmt_d true 2 (tm_mon (now_components now) + 1)
    ++ "/"%char :: fmt_d true 2 (tm_mday (now_components now))
    ++ "-"%char :: fmt_d true 2 (tm_hour (now_components now))
    ++ ":"%char :: fmt_d true 2 (tm_min (now_components now))
    ++ ":"%char :: fmt_d true 2 (tm_sec (now_components now))
    ++ "."%char :: fmt_d true 6 (tv_usec now)
    ++ SP :: fmt_s 0 thread_id ++ [SP].
Proof. reflexivity. Qed.

Lemma fmt_s_plain (s : string) : fmt_s 0 s = chars s.
Proof.
  unfold fmt_s.
  replace (Z.to_nat (0 - Z.of_nat (length (chars s)))) with O by lia.
  reflexivity.
Qed.

Lemma has_shape_app (p1 p2 s1 s2 : list ascii) :
  length p1 = length s1 ->
  has_shape (p1 ++ p2) (s1 ++ s2) = has_shape p1 s1 && has_shape p2 s2.
Proof.
  revert s1. induction p1 as [| p p1 IH]; intros [| c s1] Hl;
    try discriminate; cbn [app has_shape]; [reflexivity |].
  rewrite IH by (cbn [length] in Hl; lia).
  apply andb_assoc.
Qed.

Lemma has_shape_digits (letter : ascii) (s : list ascii) :
  is_letter letter = true -> forallb is_digit s = true ->
  has_shape (repeat letter (length s)) s = true.
Proof.
  intros Hl. induction s as [| c s IH]; cbn [length repeat has_shape forallb];
    [reflexivity |].
  intros H. apply andb_true_iff in H as [Hc Hs].
  rewrite Hl, Hc, IH by exact Hs. reflexivity.
Qed.

Lemma has_shape_field (letter sep : ascii) (d p s : list ascii) :
  is_letter letter = true -> is_letter sep = false ->
  forallb is_digit d = true ->
  has_shape (repeat letter (length d) ++ sep :: p) (d ++ sep :: s)
  = has_shape p s.
Proof.
  intros Hl Hs Hd.
  rewrite has_shape_app by apply repeat_length.
  rewrite has_shape_digits by assumption.
  cbn [has_shape andb]. rewrite Hs, Ascii.eqb_refl. reflexivity.
Qed.

Lemma fmt_d_width (w : nat) (width bound n : Z) :
  width = Z.of_nat (S w) -> bound = 10 ^ width -> 0 <= n < bound ->
  length (fmt_d true width n) = S w /\
  forallb is_digit (fmt_d true width n) = true.
Proof. intros -> -> H. apply fmt_d_fixed. exact H. Qed.

(** The header is a time stamp of 26 characters of the documented shape,
    a space, the thread id as given, and a space. *)
Lemma header_shape (now : instant) (thread_id : string) :
  valid_instant now ->
  exists stamp,
    render header_format (header_args now thread_id)
    = stamp ++ SP :: chars thread_id ++ [SP] /\
    length stamp = 26%nat /\
    has_shape stamp_pattern stamp = true.
Proof.
  intros (Hy & Hmo & Hd & Hh & Hmi & Hs & Hu).
  rewrite header_unfold, fmt_s_plain.
  destruct (fmt_d_width 3 4 10000 (tm_year (now_components now) + 1900))
    as [Ly Dy]; [reflexivity | reflexivity | lia |].
  destruct (fmt_d_width 1 2 100 (tm_mon (now_components now) + 1))
    as [Lmo Dmo]; [reflexivity | reflexivity | lia |].
  destruct (fmt_d_width 1 2 100 (tm_mday (now_components now)))
    as [Ld Dd]; [reflexivity | reflexivity | lia |].
  destruct (fmt_d_width 1 2 100 (tm_hour (now_components now)))
    as [Lh Dh]; [reflexivity | reflexivity | lia |].
  destruct (fmt_d_width 1 2 100 (tm_min (now_components now)))
    as [Lmi Dmi]; [reflexivity | reflexivity | lia |].
  destruct (fmt_d_width 1 2 100 (tm_sec (now_components now)))
    as [Ls Ds]; [reflexivity | reflexivity | lia |].
  destruct (fmt_d_width 5 6 1000000 (tv_usec now))
    as [Lu Du]; [reflexivity | reflexivity | lia |].
  set (y := fmt_d true 4 _) in *. set (mo := fmt_d true 2 _) in *.
  set (d := fmt_d true 2 (tm_mday _)) in *.
  set (h := fmt_d true 2 (tm_hour _)) in *.
  set (mi := fmt_d true 2 (tm_min _)) in *.
  set (s := fmt_d true 2 (tm_sec _)) in *.
  set (u := fmt_d true 6 _) in *.
  exists (y ++ "/"%char :: mo ++ "/"%char :: d ++ "-"%char :: h
          ++ ":"%char :: mi ++ ":"%char :: s ++ "."%char :: u).
  split; [| split].
  - repeat (rewrite <- app_assoc; cbn [app]). reflexivity.
  - repeat (rewrite length_app; cbn [length]). lia.
  - change stamp_pattern with
      (repeat "Y"%char 4 ++ "/"%char :: repeat "M"%char 2
       ++ "/"%char :: repeat "D"%char 2 ++ "-"%char :: repeat "H"%char 2
       ++ ":"%char :: repeat "M"%char 2 ++ ":"%char :: repeat "S"%char 2
       ++ "."%char :: repeat "U"%char 6).
    rewrite <- Lu, <- Ly. rewrite <- Lmo at 1. rewrite <- Ld at 1.
    rewrite <- Lh at 1. rewrite <- Lmi at 1. rewrite <- Ls.
    rewrite !has_shape_field by (assumption || reflexivity).
    apply has_shape_digits; [reflexivity | assumption].
Qed.

Lemma chars_length (s : string) : length (chars s) = String.length s.
Proof.
  induction s as [| c s IH]; cbn [chars list_ascii_of_string length String.length];
    [reflexivity |].
  f_equal. exact IH.
Qed.

Lemma substring_length_le (n : nat) :
  forall s, (String.length (substring 0 n s) <= n)%nat.
Proof.
  induction n as [| n IH]; intros [| c s]; cbn [substring String.length];
    try lia.
  specialize (IH s). lia.
Qed.

Lemma clip_thread_id_length (thread_id : string) :
  (length (chars (clip_thread_id thread_id)) <= 32)%nat.
Proof.
  rewrite chars_length. unfold clip_thread_id, kMaxThreadIdSize.
  destruct (32 <? Z.of_nat (String.length thread_id)) eqn:E.
  - change (Z.to_nat 32) with 32%nat. apply substring_length_le.
  - apply Z.ltb_ge in E. lia.
Qed.

Lemma clip_thread_id_short (thread_id : string) :
  (String.length thread_id <= 32)%nat ->
  clip_thread_id thread_id = thread_id.
Proof.
  intros H. unfold clip_thread_id, kMaxThreadIdSize.
  replace (32 <? Z.of_nat (String.length thread_id)) with false;
    [reflexivity |].
  symmetry. apply Z.ltb_ge. lia.
Qed.

(** Defining equations of the vocabulary, for rewriting. *)
Lemma header_eq (c : LogCall) :
  render header_format
         (header_args (c_now c) (clip_thread_id (c_thread c)))
  = header c.
Proof. unfold header. reflexivity. Qed.

Lemma message_eq (c : LogCall) :
  render (c_format c) (c_arguments c) = message c.
Proof. unfold message. reflexivity. Qed.

Lemma record_eq (c : LogCall) :
  record c
  = (if Ascii.eqb (last (header c ++ message c) NUL) LF
     then header c ++ message c
     else (header c ++ message c) ++ [LF]).
Proof. unfold record. reflexivity. Qed.

Lemma record_length_eq (c : LogCall) :
  record_length c = Z.of_nat (length (record c)).
Proof. unfold record_length. reflexivity. Qed.

Lemma formatted_length_eq (c : LogCall) :
  formatted_length c = Z.of_nat (length (header c ++ message c)).
Proof. unfold formatted_length. reflexivity. Qed.

(** Under a valid time the header has 28 characters besides the thread
    id: at most 60 in all and never empty. *)
Lemma header_length (c : LogCall) :
  valid_instant (c_now c) ->
  length (header c) = (28 + length (chars (clip_thread_id (c_thread c))))%nat
  /\ (28 <= length (header c) <= 60)%nat.
Proof.
  intros Hv. rewrite <- header_eq.
  destruct (header_shape (c_now c) (clip_thread_id (c_thread c)) Hv)
    as (stamp & -> & Hl & _).
  pose proof (clip_thread_id_length (c_thread c)) as Hc.
  rewrite length_app. cbn [length]. rewrite length_app. cbn [length].
  lia.
Qed.

(** ** The staging buffer *)

Lemma write_at_split (pre rest data : list ascii) :
  (length data <= length rest)%nat ->
  write_at (pre ++ rest) (length pre) data
  = pre ++ data ++ skipn (length data) rest.
Proof.
  intros H. unfold write_at.
  rewrite firstn_app, firstn_all, Nat.sub_diag. cbn [firstn].
  rewrite app_nil_r, length_app.
  replace (length pre + length rest - length pre)%nat
    with (length rest) by lia.
  rewrite firstn_all2 by exact H.
  rewrite skipn_app.
  replace (length pre + length data - length pre)%nat
    with (length data) by lia.
  rewrite skipn_all2 by lia. reflexivity.
Qed.

Lemma nth_last_of_prefix (text rest : list ascii) :
  text <> [] ->
  nth (length text - 1) (text ++ rest) NUL = last text NUL.
Proof.
  intros H. rewrite app_nth1 by (destruct text; [congruence | cbn; lia]).
  destruct (exists_last H) as (l & a & ->).
  rewrite length_app. cbn [length].
  replace (length l + 1 - 1)%nat with (length l) by lia.
  rewrite app_nth2, Nat.sub_diag by lia.
  rewrite last_last. reflexivity.
Qed.

Section Formatting.

Context {P : Platform}.

Lemma fresh_buffer_length (size : Z) :
  length (fresh_buffer size) = Z.to_nat size.
Proof. unfold fresh_buffer. rewrite length_map, length_seq. reflexivity. Qed.

(** Storing a whole text and its NUL at the end of what the buffer holds
    so far. *)
Lemma snprintf_fits (pre rest out : list ascii) (size : Z) (format : string)
    (args : list arg) :
  render format args = out ->
  Z.of_nat (length out) < size ->
  size <= Z.of_nat (length rest) ->
  snprintf (pre ++ rest) (Z.of_nat (length pre)) size format args
  = (pre ++ out ++ NUL :: skipn (S (length out)) rest,
     Z.of_nat (length out)).
Proof.
  intros <- Hfit Hroom. unfold snprintf.
  set (out := render format args) in *.
  replace (0 <? size) with true by (symmetry; apply Z.ltb_lt; lia).
  rewrite Nat2Z.id, firstn_all2 by lia.
  rewrite write_at_split by (rewrite length_app; cbn [length]; lia).
  rewrite length_app. cbn [length].
  replace (length out + 1)%nat with (S (length out)) by lia.
  rewrite <- app_assoc. reflexivity.
Qed.

Lemma snprintf_returns (buf : list ascii) (pos size : Z) (format : string)
    (args : list arg) :
  snd (snprintf buf pos size format args)
  = Z.of_nat (length (render format args)).
Proof. reflexivity. Qed.

Lemma assert_true : assert true = Ret tt.
Proof. unfold assert. destruct NDEBUG; reflexivity. Qed.

Lemma commit_prefix (text rest : list ascii) (self : PmdkLogger) (w : World) :
  commit (text ++ rest) (Z.of_nat (length text)) self w
  = commit text (Z.of_nat (length text)) self w.
Proof.
  unfold commit. rewrite Nat2Z.id.
  rewrite firstn_app, firstn_all, Nat.sub_diag. cbn [firstn].
  rewrite app_nil_r. reflexivity.
Qed.

Lemma written_eq (dynamic : bool) (c : LogCall) (s : PmdkLogger * World) :
  written dynamic c s
  = (let '(self, w) :=
       commit (record c) (Z.of_nat (length (record c))) (fst s) (snd s) in
     (self, if dynamic then emit EvDelete w else w)).
Proof. unfold written. rewrite record_length_eq. reflexivity. Qed.

(** The end of a pass on a buffer that holds [text] and has room for one
    more byte: the growth loop runs for the record, which is then stored. *)
Lemma Logv_write_text (fuel : nat) (iteration : Z) (text rest : list ascii)
    (size : Z) (self : PmdkLogger) (w : World) :
  text <> [] -> (1 <= length rest)%nat ->
  Z.of_nat (length text) + 1 <= size ->
  let rec := if Ascii.eqb (last text NUL) LF then text else text ++ [LF] in
  Logv_write fuel iteration (text ++ rest) (Z.of_nat (length text)) size
             self w
  = s <- grow_loop fuel (Z.of_nat (length rec)) self w ;;
    Ret (Break,
         let '(self', w') :=
           commit rec (Z.of_nat (length rec)) (fst s) (snd s) in
         (self', if negb (iteration =? 0) then emit EvDelete w' else w')).
Proof.
  intros Hne Hroom Hsize rec. unfold Logv_write, add_newline.
  replace (Z.to_nat (Z.of_nat (length text) - 1))
    with (length text - 1)%nat by lia.
  rewrite nth_last_of_prefix by exact Hne.
  subst rec. destruct (Ascii.eqb (last text NUL) LF); cbn [negb].
  - replace (Z.of_nat (length text) <=? size) with true
      by (symmetry; apply Z.leb_le; lia).
    rewrite assert_true. cbn [bind].
    destruct (grow_loop fuel (Z.of_nat (length text)) self w)
      as [[self' w'] | | |]; cbn [bind fst snd]; try reflexivity.
    rewrite commit_prefix. reflexivity.
  - rewrite Nat2Z.id, write_at_split by (cbn [length]; lia).
    replace (Z.of_nat (length text) + 1 <=? size) with true
      by (symmetry; apply Z.leb_le; lia).
    rewrite assert_true. cbn [bind].
    replace (Z.of_nat (length text) + 1)
      with (Z.of_nat (length (text ++ [LF])))
      by (rewrite length_app; cbn [length]; lia).
    destruct (grow_loop fuel (Z.of_nat (length (text ++ [LF]))) self w)
      as [[self' w'] | | |]; cbn [bind fst snd]; try reflexivity.
    rewrite app_assoc, commit_prefix. reflexivity.
Qed.

End Formatting.

(** ** The two passes of [Logv] *)

Section Passes.

Context {P : Platform}.

Lemma formatted_length_split (c : LogCall) :
  formatted_length c
  = Z.of_nat (length (header c)) + Z.of_nat (length (message c)).
Proof. rewrite formatted_length_eq, length_app. lia. Qed.

(** A pass whose buffer has room for the text, a line break and a NUL
    stores the record.  [hdr] and [body] are the two expansions. *)
Lemma Logv_pass_fits_texts (fuel : nat) (now : instant) (thread_id : string)
    (format : string) (arguments : list arg) (hdr body : list ascii)
    (rec : list ascii) (iteration dynamic : Z) (self : PmdkLogger)
    (w : World) :
  render header_format (header_args now thread_id) = hdr ->
  render format arguments = body ->
  rec = (if Ascii.eqb (last (hdr ++ body) NUL) LF then hdr ++ body
         else (hdr ++ body) ++ [LF]) ->
  (1 <= length hdr <= 60)%nat ->
  Z.of_nat (length (hdr ++ body)) + 2 <= INT_MAX ->
  Z.of_nat (length (hdr ++ body)) + 2
    <= (if iteration =? 0 then kStackBufferSize else dynamic) ->
  Logv_pass fuel now thread_id format arguments iteration dynamic self w
  = s <- grow_loop fuel (Z.of_nat (length rec)) self
           (if iteration =? 0 then w else emit (EvNew dynamic) w) ;;
    Ret (Break,
         let '(self', w') :=
           commit rec (Z.of_nat (length rec)) (fst s) (snd s) in
         (self', if negb (iteration =? 0) then emit EvDelete w' else w')).
Proof.
  intros Ehdr Ebody -> Hh Hint Hfit. unfold Logv_pass.
  rewrite length_app in Hint, Hfit.
  set (size := if iteration =? 0 then kStackBufferSize else dynamic) in *.
  set (w0 := if iteration =? 0 then w else emit (EvNew dynamic) w).
  pose proof (fresh_buffer_length size) as Hb.
  set (b0 := fresh_buffer size) in *.
  pose proof (snprintf_fits [] b0 hdr size header_format
                (header_args now thread_id) Ehdr) as E1.
  cbn [app length Z.of_nat] in E1.
  rewrite E1 by lia. clear E1.
  replace (Z.of_nat (length hdr) <=? 28 + kMaxThreadIdSize) with true
    by (symmetry; apply Z.leb_le; unfold kMaxThreadIdSize; lia).
  replace (Z.of_nat (length hdr) <? size) with true
    by (symmetry; apply Z.ltb_lt; lia).
  rewrite assert_true. cbn [bind].
  replace (size - Z.of_nat (length hdr) <? 0) with false
    by (symmetry; apply Z.ltb_ge; lia).
  set (r1 := NUL :: skipn (S (length hdr)) b0).
  assert (length r1 = (Z.to_nat size - length hdr)%nat) as Hr1.
  { subst r1. cbn [length]. rewrite length_skipn. lia. }
  rewrite (snprintf_fits hdr r1 body (size - Z.of_nat (length hdr))
             format arguments Ebody) by lia.
  unfold int_add.
  replace (Z.of_nat (length hdr) + Z.of_nat (length body) <=? INT_MAX)
    with true by (symmetry; apply Z.leb_le; lia).
  cbn [bind].
  replace (size - 1 <=? Z.of_nat (length hdr) + Z.of_nat (length body))
    with false by (symmetry; apply Z.leb_gt; lia).
  set (r2 := NUL :: skipn (S (length body)) r1).
  rewrite app_assoc.
  replace (Z.of_nat (length hdr) + Z.of_nat (length body))
    with (Z.of_nat (length (hdr ++ body))) by (rewrite length_app; lia).
  apply Logv_write_text.
  - destruct hdr; [cbn [length] in Hh; lia | discriminate].
  - subst r2. cbn [length]. lia.
  - rewrite length_app. lia.
Qed.

(** A first pass whose text leaves no room for the line break and the NUL
    gives up and asks for a buffer of the formatted length plus 2. *)
Lemma Logv_pass_overflows_texts (fuel : nat) (now : instant)
    (thread_id : string) (format : string) (arguments : list arg)
    (hdr body : list ascii) (self : PmdkLogger) (w : World) :
  render header_format (header_args now thread_id) = hdr ->
  render format arguments = body ->
  (1 <= length hdr <= 60)%nat ->
  Z.of_nat (length (hdr ++ body)) + 2 <= INT_MAX ->
  kStackBufferSize - 2 < Z.of_nat (length (hdr ++ body)) ->
  Logv_pass fuel now thread_id format arguments 0 0 self w
  = Ret (Continue (Z.of_nat (length (hdr ++ body)) + 2), (self, w)).
Proof.
  intros Ehdr Ebody Hh Hint Hbig. unfold Logv_pass.
  rewrite length_app in *.
  change (0 =? 0) with true. cbv iota.
  pose proof (fresh_buffer_length kStackBufferSize) as Hb.
  set (b0 := fresh_buffer kStackBufferSize) in *.
  unfold kStackBufferSize in *.
  pose proof (snprintf_fits [] b0 hdr 512 header_format
                (header_args now thread_id) Ehdr) as E1.
  cbn [app length Z.of_nat] in E1.
  rewrite E1 by lia. clear E1.
  replace (Z.of_nat (length hdr) <=? 28 + kMaxThreadIdSize) with true
    by (symmetry; apply Z.leb_le; unfold kMaxThreadIdSize; lia).
  replace (Z.of_nat (length hdr) <? 512) with true
    by (symmetry; apply Z.ltb_lt; lia).
  rewrite assert_true. cbn [bind].
  replace (512 - Z.of_nat (length hdr) <? 0) with false
    by (symmetry; apply Z.ltb_ge; lia).
  destruct (snprintf _ _ _ format arguments) as [b2 printed] eqn:E2.
  apply (f_equal snd) in E2. rewrite snprintf_returns, Ebody in E2.
  cbn [snd] in E2. subst printed.
  unfold int_add.
  replace (Z.of_nat (length hdr) + Z.of_nat (length body) <=? INT_MAX)
    with true by (symmetry; apply Z.leb_le; lia).
  cbn [bind].
  replace (512 - 1 <=? Z.of_nat (length hdr) + Z.of_nat (length body))
    with true by (symmetry; apply Z.leb_le; lia).
  replace (Z.of_nat (length hdr) + Z.of_nat (length body) + 2 <=? INT_MAX)
    with true by (symmetry; apply Z.leb_le; lia).
  rewrite Nat2Z.inj_add. reflexivity.
Qed.

Lemma header_bounds (c : LogCall) :
  valid_instant (c_now c) -> (1 <= length (header c) <= 60)%nat.
Proof. intros Hv. destruct (header_length c Hv) as [_ H]. lia. Qed.

Lemma Logv_pass_fits (fuel : nat) (c : LogCall) (iteration dynamic : Z)
    (self : PmdkLogger) (w : World) :
  valid_call c ->
  formatted_length c + 2
    <= (if iteration =? 0 then kStackBufferSize else dynamic) ->
  Logv_pass fuel (c_now c) (clip_thread_id (c_thread c)) (c_format c)
            (c_arguments c) iteration dynamic self w
  = s <- grow_loop fuel (record_length c) self
           (if iteration =? 0 then w else emit (EvNew dynamic) w) ;;
    Ret (Break, written (negb (iteration =? 0)) c s).
Proof.
  intros [Hv Hint] Hfit.
  rewrite formatted_length_eq in Hint, Hfit.
  rewrite (Logv_pass_fits_texts fuel (c_now c) (clip_thread_id (c_thread c))
             (c_format c) (c_arguments c) (header c) (message c) (record c)
             iteration dynamic self w (header_eq c) (message_eq c)
             (record_eq c) (header_bounds c Hv) Hint Hfit).
  rewrite record_length_eq.
  destruct (grow_loop fuel _ self _) as [s | | |];
    cbn [bind]; [rewrite written_eq | | |]; reflexivity.
Qed.

Lemma Logv_pass_overflows (fuel : nat) (c : LogCall) (self : PmdkLogger)
    (w : World) :
  valid_call c ->
  kStackBufferSize - 2 < formatted_length c ->
  Logv_pass fuel (c_now c) (clip_thread_id (c_thread c)) (c_format c)
            (c_arguments c) 0 0 self w
  = Ret (Continue (formatted_length c + 2), (self, w)).
Proof.
  intros [Hv Hint] Hbig.
  rewrite formatted_length_eq in *.
  apply (Logv_pass_overflows_texts fuel (c_now c)
           (clip_thread_id (c_thread c)) (c_format c) (c_arguments c)
           (header c) (message c) self w (header_eq c) (message_eq c)
           (header_bounds c Hv) Hint Hbig).
Qed.

(** [Logv] as a whole: a text of at most 510 bytes is stored from the stack
    buffer; a longer one from a dynamic buffer of its length plus 2, which
    is released after the copy. *)
Lemma Logv_eq (fuel : nat) (c : LogCall) (self : PmdkLogger) (w : World) :
  valid_call c ->
  Logv fuel c self w
  = if formatted_length c <=? kStackBufferSize - 2 then
      s <- grow_loop fuel (record_length c) self w ;;
      Ret (written false c s)
    else
      s <- grow_loop fuel (record_length c) self
             (emit (EvNew (formatted_length c + 2)) w) ;;
      Ret (written true c s).
Proof.
  intros Hc. unfold Logv.
  destruct (formatted_length c <=? kStackBufferSize - 2) eqn:E.
  - apply Z.leb_le in E.
    rewrite Logv_pass_fits
      by (try exact Hc; change (0 =? 0) with true; cbv iota; lia).
    change (0 =? 0) with true. cbn [negb]. cbv iota.
    destruct (grow_loop fuel (record_length c) self w) as [s | | |];
      reflexivity.
  - apply Z.leb_gt in E.
    rewrite Logv_pass_overflows by (try exact Hc; lia).
    cbn [bind].
    rewrite Logv_pass_fits
      by (try exact Hc; change (1 =? 0) with false; cbv iota; lia).
    change (1 =? 0) with false. cbn [negb]. cbv iota.
    destruct (grow_loop fuel (record_length c) self _) as [s | | |];
      reflexivity.
Qed.

End Passes.

(** ** The growth loop *)

Lemma wrap64_small (z : Z) : 0 <= z < two64 -> wrap64 z = z.
Proof. intros H. unfold wrap64. apply Z.mod_small. exact H. Qed.

Lemma wrap64_range (z : Z) : 0 <= wrap64 z < two64.
Proof. unfold wrap64. apply Z.mod_pos_bound. reflexivity. Qed.

Section Growth.

Context {P : Platform}.

Lemma grow_step_fields (self : PmdkLogger) (w : World) :
  filename_ (fst (grow_step self w)) = filename_ self /\
  now_off_ (fst (grow_step self w)) = now_off_ self /\
  media (snd (grow_step self w)) = media w /\
  calls (snd (grow_step self w))
  = calls w ++ [EvUnmap (mmap_base_ self) (length_ self);
                EvMapFile (filename_ self) (wrap64 (length_ self + kGrowth))
                          [PMEM_FILE_CREATE; PMEM_FILE_SPARSE] mode_0666] /\
  length_ (fst (grow_step self w))
  = snd (pmem_map_file
           (calls w ++ [EvUnmap (mmap_base_ self) (length_ self)])
           (filename_ self) (wrap64 (length_ self + kGrowth))
           [PMEM_FILE_CREATE; PMEM_FILE_SPARSE] mode_0666).
Proof.
  unfold grow_step, emit. cbn [calls media].
  destruct (pmem_map_file _ _ _ _ _) as [base new_size].
  cbn [fst snd filename_ now_off_ length_ calls media].
  rewrite <- app_assoc. repeat split; reflexivity.
Qed.

Lemma grow_n_shift (k : nat) :
  forall self w,
    grow_n (S k) self w
    = grow_n k (fst (grow_step self w)) (snd (grow_step self w)).
Proof.
  induction k as [| k IH]; intros self w.
  - cbn [grow_n]. destruct (grow_step self w); reflexivity.
  - change (grow_n (S (S k)) self w)
      with (let '(self', w') := grow_n (S k) self w in grow_step self' w').
    rewrite IH. reflexivity.
Qed.

(** The rounds of the loop leave the file name, the logical offset and the
    bytes of the file alone. *)
Lemma grow_n_frame (k : nat) (self : PmdkLogger) (w : World) :
  filename_ (fst (grow_n k self w)) = filename_ self /\
  now_off_ (fst (grow_n k self w)) = now_off_ self /\
  media (snd (grow_n k self w)) = media w.
Proof.
  induction k as [| k (Hf & Ho & Hm)]; cbn [grow_n]; [auto |].
  destruct (grow_n k self w) as [self' w']. cbn [fst snd] in *.
  destruct (grow_step_fields self' w') as (Hf' & Ho' & Hm' & _).
  rewrite Hf', Ho', Hm'. auto.
Qed.

(** A loop that returns has run some [k] rounds: the condition held before
    each of them and fails in the state returned. *)
Lemma grow_loop_rounds (n : Z) (fuel : nat) :
  forall self w s,
    grow_loop fuel n self w = Ret s ->
    exists k, (k <= fuel)%nat /\ s = grow_n k self w /\
      needs_growth n (fst s) = false /\
      forall j, (j < k)%nat ->
        needs_growth n (fst (grow_n j self w)) = true.
Proof.
  induction fuel as [| fuel IH]; intros self w s H; cbn [grow_loop] in H.
  - destruct (needs_growth n self) eqn:E; [discriminate |].
    injection H as <-. exists O. cbn [grow_n fst].
    repeat split; auto. intros j Hj. lia.
  - destruct (needs_growth n self) eqn:E.
    + destruct (grow_step self w) as [self' w'] eqn:Es.
      destruct (IH self' w' s H) as (k & Hk & -> & Hstop & Hrun).
      exists (S k). rewrite grow_n_shift, Es. cbn [fst snd].
      repeat split; [lia | exact Hstop |].
      intros [| j] Hj; [exact E |].
      rewrite grow_n_shift, Es. apply Hrun. lia.
    + injection H as <-. exists O. cbn [grow_n fst].
      repeat split; auto; [lia |]. intros j Hj. lia.
Qed.

Lemma needs_growth_small (n : Z) (self : PmdkLogger) :
  0 <= now_off_ self + n < two64 ->
  needs_growth n self = (length_ self <? now_off_ self + n).
Proof.
  intros H. unfold needs_growth. rewrite wrap64_small by exact H.
  reflexivity.
Qed.

Lemma kGrowth_value : kGrowth = 33554432.
Proof. reflexivity. Qed.

(** Under the contract a round that asks for the capacity plus 32 MiB gets
    at least that. *)
Lemma grow_step_capacity (self : PmdkLogger) (w : World) :
  map_at_least ->
  0 <= length_ self -> length_ self + kGrowth < two64 ->
  length_ self + kGrowth <= length_ (fst (grow_step self w)).
Proof.
  intros contract Hpos Hreq.
  destruct (grow_step_fields self w) as (_ & _ & _ & _ & ->).
  rewrite wrap64_small by (rewrite kGrowth_value in *; lia).
  apply contract. rewrite kGrowth_value. lia.
Qed.

(** With enough fuel for the missing capacity the loop returns. *)
Lemma grow_loop_returns (n : Z) (fuel : nat) :
  map_at_least -> 0 <= n ->
  forall self w,
    capacity_covers self ->
    now_off_ self + n + kGrowth <= two64 ->
    now_off_ self + n - length_ self <= Z.of_nat fuel * kGrowth ->
    exists s, grow_loop fuel n self w = Ret s.
Proof.
  intros contract positive.
  induction fuel as [| fuel IH]; intros self w [Hoff Hcov] Hrange Hfuel;
    cbn [grow_loop];
    rewrite needs_growth_small by (rewrite kGrowth_value in *; lia);
    destruct (length_ self <? now_off_ self + n) eqn:E; eauto;
    apply Z.ltb_lt in E.
  - exfalso. lia.
  - pose proof (grow_step_capacity self w contract) as Hcap.
    destruct (grow_step_fields self w) as (_ & Ho & _).
    destruct (grow_step self w) as [self' w']. cbn [fst snd] in *.
    apply IH.
    + unfold capacity_covers. rewrite Ho.
      rewrite kGrowth_value in *. lia.
    + rewrite Ho. exact Hrange.
    + rewrite Ho. rewrite kGrowth_value in *. lia.
Qed.

Section Contract.

Hypothesis contract : map_at_least.

Variables (n : Z) (self : PmdkLogger) (w : World).

Hypothesis covered : capacity_covers self.
Hypothesis positive : 0 <= n.
Hypothesis in_range : now_off_ self + n + kGrowth <= two64.

(** While the loop runs, every round asks for the capacity plus 32 MiB and
    gets at least that. *)
Lemma grow_n_capacity (k : nat) :
  (forall j, (j < k)%nat ->
     needs_growth n (fst (grow_n j self w)) = true) ->
  length_ self + Z.of_nat k * kGrowth <= length_ (fst (grow_n k self w)) /\
  calls (snd (grow_n k self w))
  = calls w ++ concat (map (growth_calls self w) (seq 0 k)) /\
  (map_exact ->
   length_ (fst (grow_n k self w)) = length_ self + Z.of_nat k * kGrowth).
Proof.
  destruct covered as [Hoff Hcov].
  induction k as [| k IH]; intros Hrun.
  - cbn [grow_n fst snd seq map concat]. rewrite app_nil_r.
    repeat split; lia.
  - destruct IH as (Hlen & Hcalls & Hexact); [intros j Hj; apply Hrun; lia |].
    pose proof (Hrun k (Nat.lt_succ_diag_r k)) as Hk.
    destruct (grow_n_frame k self w) as (Hf & Ho & _).
    rewrite needs_growth_small in Hk
      by (rewrite Ho; rewrite kGrowth_value in *; lia).
    rewrite Ho in Hk. apply Z.ltb_lt in Hk.
    rewrite seq_S, map_app, concat_app. cbn [Nat.add map concat].
    rewrite app_nil_r, app_assoc, <- Hcalls.
    unfold growth_calls. cbn [grow_n].
    destruct (grow_n k self w) as [self' w']. cbn [fst snd] in *.
    pose proof (grow_step_capacity self' w' contract) as Hcap.
    destruct (grow_step_fields self' w') as (_ & _ & _ & Hc & Hl).
    assert (wrap64 (length_ self' + kGrowth) = length_ self' + kGrowth)
      as Hw by (apply wrap64_small; rewrite kGrowth_value in *; lia).
    rewrite Hw in Hc, Hl. rewrite Hc, Hf.
    split; [| split; [reflexivity |]].
    + rewrite kGrowth_value in *. lia.
    + intros He. rewrite Hl, He, (Hexact He). lia.
Qed.

End Contract.

End Growth.

(** ** One append *)

Lemma record_cases (c : LogCall) :
  (last (header c ++ message c) NUL = LF /\
   record c = header c ++ message c) \/
  (last (header c ++ message c) NUL <> LF /\
   record c = (header c ++ message c) ++ [LF]).
Proof.
  rewrite record_eq.
  destruct (Ascii.eqb (last (header c ++ message c) NUL) LF) eqn:E.
  - left. apply Ascii.eqb_eq in E. auto.
  - right. apply Ascii.eqb_neq in E. auto.
Qed.

Lemma record_length_bounds (c : LogCall) :
  formatted_length c <= record_length c <= formatted_length c + 1.
Proof.
  rewrite record_length_eq, formatted_length_eq.
  destruct (record_cases c) as [[_ ->] | [_ ->]];
    [| rewrite (length_app _ [LF]); cbn [length]];
    generalize (length (header c ++ message c)); intros; lia.
Qed.

Section Append.

Context {P : Platform}.

Lemma written_fields (dynamic : bool) (c : LogCall) (s : PmdkLogger * World) :
  filename_ (fst (written dynamic c s)) = filename_ (fst s) /\
  mmap_base_ (fst (written dynamic c s)) = mmap_base_ (fst s) /\
  length_ (fst (written dynamic c s)) = length_ (fst s) /\
  now_off_ (fst (written dynamic c s))
  = wrap64 (now_off_ (fst s) + record_length c) /\
  calls (snd (written dynamic c s))
  = calls (snd s)
    ++ EvMemcpy (mmap_base_ (fst s) + now_off_ (fst s)) (record c)
                PMEM_F_MEM_NONTEMPORAL
       :: (if dynamic then [EvDelete] else []) /\
  media (snd (written dynamic c s))
  = store (media (snd s)) (now_off_ (fst s)) (record c).
Proof.
  rewrite written_eq, record_length_eq. unfold commit.
  rewrite Nat2Z.id, firstn_all.
  generalize (record c). intros rec.
  destruct dynamic; cbn [fst snd filename_ mmap_base_ length_ now_off_
                         calls media emit];
    rewrite <- ?app_assoc; repeat split; reflexivity.
Qed.

(** An append returns: some [k] rounds of growth, then the record is
    stored in a state whose capacity holds it. *)
Lemma Logv_step (fuel : nat) (c : LogCall) (self : PmdkLogger) (w : World)
    (dynamic : bool) (w0 : World) :
  map_at_least -> valid_call c -> capacity_covers self ->
  now_off_ self + record_length c + kGrowth <= two64 ->
  (64 <= fuel)%nat ->
  dynamic = negb (formatted_length c <=? kStackBufferSize - 2) ->
  w0 = (if dynamic then emit (EvNew (formatted_length c + 2)) w else w) ->
  exists k,
    grow_loop fuel (record_length c) self w0 = Ret (grow_n k self w0) /\
    Logv fuel c self w = Ret (written dynamic c (grow_n k self w0)) /\
    (forall j, (j < k)%nat ->
       needs_growth (record_length c) (fst (grow_n j self w0)) = true) /\
    now_off_ self + record_length c <= length_ (fst (grow_n k self w0)).
Proof.
  intros contract valid covered in_range enough Hdyn Hw0.
  pose proof (record_length_bounds c) as Hb.
  assert (0 <= formatted_length c) as Hpos
    by (rewrite formatted_length_eq; lia).
  destruct valid as [Hv Hint].
  destruct covered as [Hoff Hcov].
  destruct (grow_loop_returns (record_length c) fuel contract
              ltac:(lia) self w0 (conj Hoff Hcov) in_range) as [s Hs].
  { rewrite kGrowth_value. unfold INT_MAX in Hint. lia. }
  destruct (grow_loop_rounds _ _ _ _ _ Hs) as (k & _ & -> & Hstop & Hrun).
  exists k. repeat split; [exact Hs | | exact Hrun |].
  - rewrite Logv_eq by (split; assumption). subst w0 dynamic.
    destruct (formatted_length c <=? kStackBufferSize - 2); cbn [negb] in *;
      rewrite Hs; reflexivity.
  - destruct (grow_n_frame k self w0) as (_ & Ho & _).
    rewrite needs_growth_small in Hstop
      by (rewrite Ho; rewrite kGrowth_value in *; lia).
    rewrite Ho in Hstop. apply Z.ltb_ge in Hstop. exact Hstop.
Qed.

(** What an append leaves, field by field. *)
Lemma Logv_effect (fuel : nat) (c : LogCall) (self : PmdkLogger) (w : World) :
  map_at_least -> valid_call c -> capacity_covers self ->
  now_off_ self + record_length c + kGrowth <= two64 ->
  (64 <= fuel)%nat ->
  exists s,
    Logv fuel c self w = Ret s /\
    filename_ (fst s) = filename_ self /\
    now_off_ (fst s) = now_off_ self + record_length c /\
    now_off_ (fst s) <= length_ (fst s) /\
    length_ self <= length_ (fst s) /\
    media (snd s) = store (media w) (now_off_ self) (record c).
Proof.
  intros contract valid covered in_range enough.
  destruct (Logv_step fuel c self w _ _ contract valid covered in_range
              enough eq_refl eq_refl) as (k & _ & -> & Hrun & Hfit).
  set (w0 := if negb _ then _ else w) in *.
  assert (media w0 = media w) as Hm0
    by (subst w0; destruct (negb _); reflexivity).
  eexists. split; [reflexivity |].
  destruct (written_fields
              (negb (formatted_length c <=? kStackBufferSize - 2)) c
              (grow_n k self w0)) as (Hf & _ & Hl & Ho & _ & Hm).
  destruct (grow_n_frame k self w0) as (Hf' & Ho' & Hm').
  pose proof (record_length_bounds c) as Hb.
  assert (0 <= formatted_length c) as Hpos
    by (rewrite formatted_length_eq; lia).
  destruct (grow_n_capacity contract (record_length c) self w0 covered
              ltac:(lia) in_range k Hrun) as (Hcap & _).
  destruct covered as [Hoff Hcov].
  rewrite Hf, Hl, Ho, Hm, Hf', Ho', Hm', Hm0.
  rewrite wrap64_small by (rewrite kGrowth_value in *; lia).
  repeat split; try reflexivity; try exact Hfit.
  rewrite kGrowth_value in *. lia.
Qed.

End Append.

(** ** Bytes of the file *)

Lemma store_outside (m : Z -> ascii) (off : Z) (data : list ascii) (a : Z) :
  a < off \/ off + Z.of_nat (length data) <= a ->
  store m off data a = m a.
Proof.
  intros H. unfold store.
  destruct (off <=? a) eqn:E1; [| reflexivity].
  destruct (a <? off + Z.of_nat (length data)) eqn:E2; [| reflexivity].
  apply Z.leb_le in E1. apply Z.ltb_lt in E2. lia.
Qed.

Lemma load_length (m : Z -> ascii) (off : Z) (n : nat) :
  length (load m off n) = n.
Proof. unfold load. rewrite length_map, length_seq. reflexivity. Qed.

Lemma load_nth (m : Z -> ascii) (off : Z) (n i : nat) :
  (i < n)%nat -> nth i (load m off n) NUL = m (off + Z.of_nat i).
Proof.
  intros H. unfold load.
  rewrite (nth_indep _ NUL (m (off + Z.of_nat 0)))
    by (rewrite length_map, length_seq; exact H).
  rewrite (map_nth (fun i => m (off + Z.of_nat i)) (seq 0 n) O i).
  rewrite seq_nth by exact H. reflexivity.
Qed.

Lemma load_ext (m m' : Z -> ascii) (off : Z) (n : nat) :
  (forall a, off <= a < off + Z.of_nat n -> m a = m' a) ->
  load m off n = load m' off n.
Proof.
  intros H. apply (nth_ext _ _ NUL NUL).
  - rewrite !load_length. reflexivity.
  - intros i Hi. rewrite load_length in Hi.
    rewrite !load_nth by exact Hi. apply H. lia.
Qed.

Lemma load_store (m : Z -> ascii) (off : Z) (data : list ascii) :
  load (store m off data) off (length data) = data.
Proof.
  apply (nth_ext _ _ NUL NUL).
  - apply load_length.
  - intros i Hi. rewrite load_length in Hi.
    rewrite load_nth by exact Hi. unfold store.
    replace (off <=? off + Z.of_nat i) with true
      by (symmetry; apply Z.leb_le; lia).
    replace (off + Z.of_nat i <? off + Z.of_nat (length data)) with true
      by (symmetry; apply Z.ltb_lt; lia).
    cbn [andb]. f_equal. lia.
Qed.

(** ** Sequences of appends *)

Lemma record_length_nonneg (c : LogCall) : 0 <= record_length c.
Proof. rewrite record_length_eq. lia. Qed.

Lemma total_length_cons (c : LogCall) (cs : list LogCall) :
  total_length (c :: cs) = record_length c + total_length cs.
Proof. reflexivity. Qed.

Lemma total_length_nonneg (cs : list LogCall) : 0 <= total_length cs.
Proof.
  induction cs as [| c cs IH]; [cbn [total_length]; lia |].
  rewrite total_length_cons.
  pose proof (record_length_nonneg c). lia.
Qed.

Lemma total_length_app (cs cs' : list LogCall) :
  total_length (cs ++ cs') = total_length cs + total_length cs'.
Proof.
  induction cs as [| c cs IH]; [reflexivity |].
  cbn [app]. rewrite !total_length_cons, IH. lia.
Qed.

Lemma Forall_firstn {A : Type} (Q : A -> Prop) (i : nat) (l : list A) :
  Forall Q l -> Forall Q (firstn i l).
Proof.
  intros H. rewrite <- (firstn_skipn i l) in H.
  apply Forall_app in H. apply H.
Qed.

Lemma firstn_succ {A : Type} (l : list A) :
  forall i x, nth_error l i = Some x -> firstn (S i) l = firstn i l ++ [x].
Proof.
  induction l as [| a l IH]; intros [| i] x H; try discriminate.
  - injection H as <-. reflexivity.
  - cbn [nth_error] in H. rewrite firstn_cons, (IH i x H). reflexivity.
Qed.

Lemma total_length_firstn (i : nat) (cs : list LogCall) :
  total_length (firstn i cs) <= total_length cs.
Proof.
  rewrite <- (firstn_skipn i cs) at 2. rewrite total_length_app.
  pose proof (total_length_nonneg (skipn i cs)). lia.
Qed.

Section Sequences.

Context {P : Platform}.

Hypothesis contract : map_at_least.

Variable fuel : nat.

Hypothesis enough : (64 <= fuel)%nat.

(** A sequence of appends returns; the offset advances by the total of the
    record lengths; capacity covers it; the bytes outside the range
    written are as before and every record lies where the one before it
    ended. *)
Lemma Logv_all_effect (cs : list LogCall) :
  forall self w,
    Forall valid_call cs -> capacity_covers self ->
    now_off_ self + total_length cs + kGrowth <= two64 ->
    exists s,
      Logv_all fuel cs self w = Ret s /\
      filename_ (fst s) = filename_ self /\
      now_off_ (fst s) = now_off_ self + total_length cs /\
      capacity_covers (fst s) /\
      length_ self <= length_ (fst s) /\
      (forall a, a < now_off_ self \/ now_off_ self + total_length cs <= a ->
         media (snd s) a = media w a) /\
      (forall i c, nth_error cs i = Some c ->
         load (media (snd s))
              (now_off_ self + total_length (firstn i cs))
              (length (record c))
         = record c).
Proof.
  induction cs as [| c cs IH]; intros self w Hvalid Hcov Hrange.
  - cbn [Logv_all total_length] in *. exists (self, w). cbn [fst snd].
    split; [reflexivity |]. split; [reflexivity |].
    split; [lia |]. split; [exact Hcov |]. split; [lia |].
    split; [reflexivity |].
    intros [| i] c' H; discriminate.
  - rewrite total_length_cons in *. cbn [Logv_all].
    apply Forall_cons_iff in Hvalid as [Hc Hcs].
    pose proof (record_length_nonneg c) as Hc0.
    pose proof (total_length_nonneg cs) as Hcs0.
    destruct (Logv_effect fuel c self w contract Hc Hcov) as
      (s1 & -> & Hf1 & Ho1 & Hcap1 & Hlen1 & Hm1); [lia | exact enough |].
    cbn [bind].
    destruct (IH (fst s1) (snd s1) Hcs) as
      (s & Hs & Hf & Ho & Hcap & Hlen & Hframe & Hrec).
    { unfold capacity_covers in *. lia. }
    { rewrite Ho1. lia. }
    exists s.
    split; [exact Hs |]. split; [rewrite Hf; exact Hf1 |].
    split; [rewrite Ho, Ho1; lia |]. split; [exact Hcap |].
    split; [lia |]. split.
    + intros a Ha. rewrite Hframe by (rewrite Ho1; lia).
      rewrite Hm1. apply store_outside. rewrite <- record_length_eq. lia.
    + intros [| i] c' Hnth; cbn [nth_error firstn] in *.
      * injection Hnth as <-. cbn [total_length]. rewrite Z.add_0_r.
        rewrite <- (load_store (media w) (now_off_ self) (record c)) at 2.
        rewrite <- Hm1. apply load_ext. intros a Ha.
        apply Hframe. rewrite Ho1, record_length_eq. lia.
      * rewrite total_length_cons.
        replace (now_off_ self
                 + (record_length c + total_length (firstn i cs)))
          with (now_off_ (fst s1) + total_length (firstn i cs))
          by (rewrite Ho1; lia).
        apply Hrec. exact Hnth.
Qed.

End Sequences.

(** ** Properties of the logger *)

Lemma valid_call_sample : valid_call sample_call.
Proof.
  split.
  - unfold valid_instant. cbn. lia.
  - apply Z.leb_le. vm_compute. reflexivity.
Qed.

Lemma map_at_least_exact (ndebug : bool) :
  @map_at_least (exact_platform ndebug).
Proof. intros tr path len flags mode H. cbn. lia. Qed.

Lemma map_exact_exact (ndebug : bool) : @map_exact (exact_platform ndebug).
Proof. intros tr path len flags mode. reflexivity. Qed.

Lemma map_at_least_paged : @map_at_least paged_platform.
Proof.
  intros tr path len flags mode H. cbn [paged_platform pmem_map_file snd].
  pose proof (Z.div_mod (len + 4095) 4096 ltac:(lia)) as E.
  pose proof (Z.mod_pos_bound (len + 4095) 4096 ltac:(lia)) as B.
  lia.
Qed.

Section Construction.

Context {P : Platform}.

Lemma PmdkLogger_new_returns (filename : string) (base size : Z)
    (existing : bool) (self : PmdkLogger) :
  PmdkLogger_new filename base size existing = Ret self ->
  self = mkLogger filename base size (if existing then size else 0).
Proof.
  unfold PmdkLogger_new, assert. cbn [mmap_base_].
  destruct NDEBUG; [| destruct (negb (base =? 0))]; cbn [bind];
    intros H; inversion H; reflexivity.
Qed.

Lemma PmdkLogger_new_nonnull (filename : string) (base size : Z)
    (existing : bool) :
  base <> 0 ->
  PmdkLogger_new filename base size existing
  = Ret (mkLogger filename base size (if existing then size else 0)).
Proof.
  intros H. unfold PmdkLogger_new, assert. cbn [mmap_base_].
  apply Z.eqb_neq in H. rewrite H. cbn [negb].
  destruct NDEBUG; reflexivity.
Qed.

End Construction.

(** C1: the mapped capacity is at least the logical offset after
    construction, fresh or reopened; after every append of any sequence of
    appends; and after every round of the growth loop inside the next
    append.  The mapping service reports at least what is asked for and
    the log stays within [size_t]. *)
Theorem capacity_covers_offset {P : Platform} :
  map_at_least ->
  forall (fuel : nat) (filename : string) (base size : Z) (existing : bool)
         (self : PmdkLogger) (cs : list LogCall) (w : World),
    (64 <= fuel)%nat -> 0 <= size ->
    PmdkLogger_new filename base size existing = Ret self ->
    Forall valid_call cs ->
    size + total_length cs + kGrowth <= two64 ->
    capacity_covers self /\
    forall i : nat,
      exists s,
        Logv_all fuel (firstn i cs) self w = Ret s /\
        capacity_covers (fst s) /\
        forall c, nth_error cs i = Some c ->
          forall (w0 : World) (k : nat),
            (forall j, (j < k)%nat ->
               needs_growth (record_length c) (fst (grow_n j (fst s) w0))
               = true) ->
            capacity_covers (fst (grow_n k (fst s) w0)).
Proof.
  intros contract fuel filename base size existing self cs w enough Hsize
         Hnew Hvalid Hrange.
  apply PmdkLogger_new_returns in Hnew.
  assert (capacity_covers self /\ now_off_ self <= size) as [Hcov Hoff].
  { subst self. unfold capacity_covers. cbn [now_off_ length_].
    destruct existing; lia. }
  split; [exact Hcov |]. intros i.
  pose proof (total_length_firstn i cs) as Hi.
  pose proof (total_length_nonneg (firstn i cs)) as Hi0.
  destruct (Logv_all_effect contract fuel enough (firstn i cs) self w)
    as (s & Hs & _ & Ho & Hcap & _); [| exact Hcov | lia |].
  { apply Forall_firstn. exact Hvalid. }
  exists s. split; [exact Hs |]. split; [exact Hcap |].
  intros c Hnth w0 k Hrun.
  assert (total_length (firstn i cs) + record_length c <= total_length cs)
    as Hnext.
  { pose proof (total_length_firstn (S i) cs) as HS.
    rewrite (firstn_succ _ _ _ Hnth) in HS.
    rewrite total_length_app, total_length_cons in HS.
    cbn [total_length] in HS. lia. }
  destruct (grow_n_capacity contract (record_length c) (fst s) w0 Hcap
              (record_length_nonneg c) ltac:(lia) k Hrun) as (Hlen & _).
  destruct (grow_n_frame k (fst s) w0) as (_ & Hsame & _).
  unfold capacity_covers in *. rewrite Hsame.
  rewrite kGrowth_value in *. lia.
Qed.

Lemma capacity_covers_offset_witness :
  capacity_covers reopened_logger /\
  exists s,
    @Logv_all (exact_platform false) 64 [sample_call; sample_call]
              reopened_logger empty_world = Ret s /\
    capacity_covers (fst s).
Proof.
  destruct (@capacity_covers_offset (exact_platform false)
              (map_at_least_exact false) 64 "LOG" 65536 100 true
              reopened_logger [sample_call; sample_call] empty_world)
    as [H0 H].
  - lia.
  - lia.
  - reflexivity.
  - repeat constructor; try (cbn; lia); apply Z.leb_le; vm_compute;
      reflexivity.
  - apply Z.leb_le. vm_compute. reflexivity.
  - split; [exact H0 |].
    destruct (H 2%nat) as (s & Hs & Hc & _).
    exists s. split; [exact Hs | exact Hc].
Defined.

(** C3: a sequence of appends advances the logical offset by exactly the
    sum of the lengths of the records, line breaks included; each record
    lies in the file where the one before it ended, so that no record
    overlaps another. *)
Theorem offset_advances_by_total_length {P : Platform} :
  map_at_least ->
  forall (fuel : nat) (cs : list LogCall) (self : PmdkLogger) (w : World),
    (64 <= fuel)%nat -> Forall valid_call cs -> capacity_covers self ->
    now_off_ self + total_length cs + kGrowth <= two64 ->
    exists s,
      Logv_all fuel cs self w = Ret s /\
      now_off_ (fst s) = now_off_ self + total_length cs /\
      forall i c, nth_error cs i = Some c ->
        total_length (firstn (S i) cs)
        = total_length (firstn i cs) + record_length c /\
        load (media (snd s))
             (now_off_ self + total_length (firstn i cs))
             (length (record c))
        = record c.
Proof.
  intros contract fuel cs self w enough Hvalid Hcov Hrange.
  destruct (Logv_all_effect contract fuel enough cs self w Hvalid Hcov
              Hrange) as (s & Hs & _ & Ho & _ & _ & _ & Hrec).
  exists s. split; [exact Hs |]. split; [exact Ho |].
  intros i c Hnth. split; [| apply Hrec; exact Hnth].
  rewrite (firstn_succ _ _ _ Hnth), total_length_app, total_length_cons.
  cbn [total_length]. lia.
Qed.

Lemma offset_advances_by_total_length_witness :
  exists s,
    @Logv_all (exact_platform true) 64 [sample_call; empty_call]
              reopened_logger empty_world = Ret s /\
    now_off_ (fst s) = 100 + (38 + 35).
Proof.
  destruct (@offset_advances_by_total_length (exact_platform true)
              (map_at_least_exact true) 64 [sample_call; empty_call]
              reopened_logger empty_world) as (s & Hs & Ho & _).
  - lia.
  - repeat constructor; try (cbn; lia); apply Z.leb_le; vm_compute;
      reflexivity.
  - unfold capacity_covers. cbn. lia.
  - apply Z.leb_le. vm_compute. reflexivity.
  - exists s. split; [exact Hs |]. rewrite Ho. vm_compute. reflexivity.
Defined.

(** C7: reopening an existing region of [L] bytes starts at logical offset
    [L], a fresh region at 0; every append after a reopening stores its
    record at an offset of at least [L], and the bytes below [L] stay as
    they were. *)
Theorem reopen_keeps_prior_content {P : Platform} :
  map_at_least ->
  forall (fuel : nat) (filename : string) (base L : Z)
         (cs : list LogCall) (w : World),
    (64 <= fuel)%nat -> base <> 0 -> 0 <= L ->
    Forall valid_call cs ->
    L + total_length cs + kGrowth <= two64 ->
    exists reopened fresh,
      PmdkLogger_new filename base L true = Ret reopened /\
      now_off_ reopened = L /\
      PmdkLogger_new filename base L false = Ret fresh /\
      now_off_ fresh = 0 /\
      forall i : nat,
        exists s,
          Logv_all fuel (firstn i cs) reopened w = Ret s /\
          L <= now_off_ (fst s) /\
          (forall a, a < L -> media (snd s) a = media w a) /\
          forall c, nth_error cs i = Some c ->
            exists s',
              Logv fuel c (fst s) (snd s) = Ret s' /\
              media (snd s')
              = store (media (snd s)) (now_off_ (fst s)) (record c).
Proof.
  intros contract fuel filename base L cs w enough Hbase HL Hvalid Hrange.
  exists (mkLogger filename base L L), (mkLogger filename base L 0).
  split; [apply (PmdkLogger_new_nonnull filename base L true Hbase) |].
  split; [reflexivity |].
  split; [apply (PmdkLogger_new_nonnull filename base L false Hbase) |].
  split; [reflexivity |].
  intros i.
  set (self := mkLogger filename base L L).
  assert (capacity_covers self) as Hcov
    by (unfold capacity_covers; cbn [self now_off_ length_]; lia).
  pose proof (total_length_firstn i cs) as Hi.
  pose proof (total_length_nonneg (firstn i cs)) as Hi0.
  destruct (Logv_all_effect contract fuel enough (firstn i cs) self w
              (Forall_firstn _ i cs Hvalid) Hcov)
    as (s & Hs & _ & Ho & Hcap & _ & Hframe & _).
  { cbn [self now_off_]. lia. }
  cbn [self now_off_] in Ho, Hframe.
  exists s. split; [exact Hs |]. split; [lia |].
  split; [intros a Ha; apply Hframe; lia |].
  intros c Hnth.
  assert (total_length (firstn i cs) + record_length c <= total_length cs)
    as Hnext.
  { pose proof (total_length_firstn (S i) cs) as HS.
    rewrite (firstn_succ _ _ _ Hnth) in HS.
    rewrite total_length_app, total_length_cons in HS.
    cbn [total_length] in HS. lia. }
  rewrite Forall_forall in Hvalid.
  destruct (Logv_effect fuel c (fst s) (snd s) contract
              (Hvalid c (nth_error_In _ _ Hnth)) Hcap)
    as (s' & Hs' & _ & _ & _ & _ & Hm); [lia | exact enough |].
  exists s'. split; [exact Hs' | exact Hm].
Qed.

Lemma reopen_keeps_prior_content_witness :
  exists s,
    @Logv_all (exact_platform false) 64 [sample_call; double_break_call]
              reopened_logger empty_world = Ret s /\
    forall a, a < 100 -> media (snd s) a = NUL.
Proof.
  destruct (@reopen_keeps_prior_content (exact_platform false)
              (map_at_least_exact false) 64 "LOG" 65536 100
              [sample_call; double_break_call] empty_world)
    as (reopened & fresh & Hnew & _ & _ & _ & H).
  - lia.
  - lia.
  - lia.
  - repeat constructor; try (cbn; lia); apply Z.leb_le; vm_compute;
      reflexivity.
  - apply Z.leb_le. vm_compute. reflexivity.
  - injection Hnew as <-.
    destruct (H 2%nat) as (s & Hs & _ & Hframe & _).
    exists s. split; [exact Hs |]. intros a Ha. apply (Hframe a Ha).
Defined.

(** C10: when an append copies its record into the mapped region, the
    bytes from the logical offset to the logical offset plus the record
    length lie within the mapped capacity: the growth loop has returned
    a state in which the condition of the loop is false. *)
Theorem copy_stays_within_capacity {P : Platform} :
  map_at_least ->
  forall (fuel : nat) (c : LogCall) (self : PmdkLogger) (w : World),
    (64 <= fuel)%nat -> valid_call c -> capacity_covers self ->
    now_off_ self + record_length c + kGrowth <= two64 ->
    exists (dynamic : bool) (w0 : World) (at_copy : PmdkLogger * World),
      grow_loop fuel (record_length c) self w0 = Ret at_copy /\
      Logv fuel c self w = Ret (written dynamic c at_copy) /\
      needs_growth (record_length c) (fst at_copy) = false /\
      0 <= now_off_ (fst at_copy) /\
      now_off_ (fst at_copy) + record_length c <= length_ (fst at_copy) /\
      In (EvMemcpy (mmap_base_ (fst at_copy) + now_off_ (fst at_copy))
                   (record c) PMEM_F_MEM_NONTEMPORAL)
         (calls (snd (written dynamic c at_copy))).
Proof.
  intros contract fuel c self w enough Hvalid Hcov Hrange.
  destruct (Logv_step fuel c self w _ _ contract Hvalid Hcov Hrange enough
              eq_refl eq_refl) as (k & Hloop & Hlogv & Hrun & Hfit).
  eexists _, _, _. split; [exact Hloop |]. split; [exact Hlogv |].
  destruct (grow_loop_rounds _ _ _ _ _ Hloop) as (_ & _ & _ & Hstop & _).
  destruct (grow_n_frame k self
              (if negb (formatted_length c <=? kStackBufferSize - 2)
               then emit (EvNew (formatted_length c + 2)) w else w))
    as (_ & Ho & _).
  destruct (written_fields
              (negb (formatted_length c <=? kStackBufferSize - 2)) c
              (grow_n k self
                 (if negb (formatted_length c <=? kStackBufferSize - 2)
                  then emit (EvNew (formatted_length c + 2)) w else w)))
    as (_ & _ & _ & _ & Hcalls & _).
  split; [exact Hstop |].
  split; [rewrite Ho; apply Hcov |]. split; [rewrite Ho; exact Hfit |].
  rewrite Hcalls. apply in_or_app. right. apply in_eq.
Qed.

Lemma copy_stays_within_capacity_witness :
  exists dynamic w0 at_copy,
    @Logv (exact_platform false) 64 sample_call reopened_logger empty_world
    = Ret (written dynamic sample_call at_copy) /\
    @grow_loop (exact_platform false) 64 (record_length sample_call)
               reopened_logger w0 = Ret at_copy /\
    now_off_ (fst at_copy) + record_length sample_call
    <= length_ (fst at_copy).
Proof.
  destruct (@copy_stays_within_capacity (exact_platform false)
              (map_at_least_exact false) 64 sample_call reopened_logger
              empty_world)
    as (dynamic & w0 & at_copy & Hloop & Hlogv & _ & _ & Hfit & _).
  - lia.
  - split; [unfold valid_instant; cbn; lia
           | apply Z.leb_le; vm_compute; reflexivity].
  - unfold capacity_covers. cbn. lia.
  - apply Z.leb_le. vm_compute. reflexivity.
  - exists dynamic, w0, at_copy. auto.
Defined.

(** ** Line breaks at the end of a record *)

Lemma trailing_breaks_snoc (text : list ascii) (a : ascii) :
  trailing_breaks (text ++ [a])
  = if Ascii.eqb a LF then S (trailing_breaks text) else O.
Proof. unfold trailing_breaks. rewrite rev_unit. reflexivity. Qed.

Lemma trailing_breaks_rev_stop (l r : list ascii) (x : ascii) :
  Ascii.eqb x LF = false ->
  trailing_breaks_rev (l ++ x :: r) = trailing_breaks_rev l.
Proof.
  intros Hx. induction l as [| c l IH]; cbn [app trailing_breaks_rev].
  - rewrite Hx. reflexivity.
  - rewrite IH. reflexivity.
Qed.

Lemma trailing_breaks_after_space (pre m : list ascii) :
  trailing_breaks ((pre ++ [SP]) ++ m) = trailing_breaks m.
Proof.
  unfold trailing_breaks. rewrite rev_app_distr, rev_unit.
  apply trailing_breaks_rev_stop. reflexivity.
Qed.

Lemma last_is_break (text : list ascii) :
  Ascii.eqb (last text NUL) LF = true <-> (1 <= trailing_breaks text)%nat.
Proof.
  destruct text as [| a text] using rev_ind.
  - cbn. split; [discriminate | lia].
  - rewrite last_last, trailing_breaks_snoc.
    destruct (Ascii.eqb a LF); split; (reflexivity || lia || discriminate).
Qed.

Lemma header_ends_in_space (c : LogCall) :
  valid_instant (c_now c) -> exists pre, header c = pre ++ [SP].
Proof.
  intros Hv. rewrite <- header_eq.
  destruct (header_shape (c_now c) (clip_thread_id (c_thread c)) Hv)
    as (stamp & -> & _).
  exists (stamp ++ SP :: chars (clip_thread_id (c_thread c))).
  rewrite <- app_assoc. reflexivity.
Qed.

(** A record ends in as many line breaks as its message, and in one if the
    message ends in none. *)
Lemma record_trailing_breaks (c : LogCall) :
  valid_instant (c_now c) ->
  trailing_breaks (record c) = Nat.max 1 (trailing_breaks (message c)).
Proof.
  intros Hv. destruct (header_ends_in_space c Hv) as [pre Hpre].
  pose proof (trailing_breaks_after_space pre (message c)) as Htext.
  rewrite <- Hpre in Htext.
  pose proof (last_is_break (header c ++ message c)) as Hlast.
  destruct (record_cases c) as [[E ->] | [E ->]].
  - apply Ascii.eqb_eq in E. apply Hlast in E. lia.
  - apply Ascii.eqb_neq in E.
    rewrite trailing_breaks_snoc. cbn [Ascii.eqb].
    change (Ascii.eqb LF LF) with true. cbv iota.
    destruct (trailing_breaks (header c ++ message c)) as [| n] eqn:En.
    + rewrite <- Htext. reflexivity.
    + exfalso. assert (Ascii.eqb (last (header c ++ message c) NUL) LF = true)
        as X by (apply Hlast; lia).
      rewrite E in X. discriminate.
Qed.

Lemma record_ends_in_break (c : LogCall) : last (record c) NUL = LF.
Proof.
  destruct (record_cases c) as [[E ->] | [_ ->]];
    [exact E | apply last_last].
Qed.

(** ** Calls made by an append *)

Section Trace.

Context {P : Platform}.

(** The calls of an append, in order: the allocation of a dynamic buffer
    if one is used, the rounds of growth, the copy of the record, the
    release of the dynamic buffer. *)
Lemma Logv_calls (fuel : nat) (c : LogCall) (self : PmdkLogger) (w : World)
    (dynamic : bool) (w0 : World) :
  map_at_least -> valid_call c -> capacity_covers self ->
  now_off_ self + record_length c + kGrowth <= two64 ->
  (64 <= fuel)%nat ->
  dynamic = negb (formatted_length c <=? kStackBufferSize - 2) ->
  w0 = (if dynamic then emit (EvNew (formatted_length c + 2)) w else w) ->
  exists k,
    grow_loop fuel (record_length c) self w0 = Ret (grow_n k self w0) /\
    Logv fuel c self w = Ret (written dynamic c (grow_n k self w0)) /\
    calls (snd (written dynamic c (grow_n k self w0)))
    = calls w0
      ++ concat (map (growth_calls self w0) (seq 0 k))
      ++ EvMemcpy (mmap_base_ (fst (grow_n k self w0)) + now_off_ self)
                  (record c) PMEM_F_MEM_NONTEMPORAL
         :: (if dynamic then [EvDelete] else []).
Proof.
  intros contract valid covered in_range enough Hdyn Hw0.
  destruct (Logv_step fuel c self w dynamic w0 contract valid covered
              in_range enough Hdyn Hw0) as (k & Hloop & Hlogv & Hrun & _).
  exists k. split; [exact Hloop |]. split; [exact Hlogv |].
  destruct (written_fields dynamic c (grow_n k self w0))
    as (_ & _ & _ & _ & -> & _).
  destruct (grow_n_frame k self w0) as (_ & -> & _).
  destruct (grow_n_capacity contract (record_length c) self w0 covered
              (record_length_nonneg c) in_range k Hrun) as (_ & -> & _).
  rewrite <- app_assoc. reflexivity.
Qed.

End Trace.

(** C4: a call whose formatted length, header plus body, is at most the
    stack buffer size minus 2 (510 bytes) is served by the first pass: the
    pass ends the loop, the record is copied, and the append calls the
    allocator neither to allocate nor to release. *)
Theorem short_text_stays_on_stack {P : Platform} :
  map_at_least ->
  forall (fuel : nat) (c : LogCall) (self : PmdkLogger) (w : World),
    (64 <= fuel)%nat -> valid_call c -> capacity_covers self ->
    now_off_ self + record_length c + kGrowth <= two64 ->
    formatted_length c <= kStackBufferSize - 2 ->
    exists (k : nat) (added : list event),
      Logv_pass fuel (c_now c) (clip_thread_id (c_thread c)) (c_format c)
                (c_arguments c) 0 0 self w
      = Ret (Break, written false c (grow_n k self w)) /\
      Logv fuel c self w = Ret (written false c (grow_n k self w)) /\
      calls (snd (written false c (grow_n k self w))) = calls w ++ added /\
      added
      = concat (map (growth_calls self w) (seq 0 k))
        ++ [EvMemcpy (mmap_base_ (fst (grow_n k self w)) + now_off_ self)
                     (record c) PMEM_F_MEM_NONTEMPORAL] /\
      existsb heap_event added = false.
Proof.
  intros contract fuel c self w enough Hvalid Hcov Hrange Hshort.
  assert (negb (formatted_length c <=? kStackBufferSize - 2) = false) as Hd
    by (apply Z.leb_le in Hshort; rewrite Hshort; reflexivity).
  destruct (Logv_calls fuel c self w false w contract Hvalid Hcov Hrange
              enough) as (k & Hloop & Hlogv & Hcalls).
  { symmetry. exact Hd. }
  { reflexivity. }
  exists k. eexists. split; [| split; [exact Hlogv | split; [exact Hcalls |]]].
  - rewrite Logv_pass_fits
      by (try exact Hvalid; change (0 =? 0) with true; cbv iota;
          rewrite kGrowth_value in *; unfold kStackBufferSize in *; lia).
    change (0 =? 0) with true. cbv iota. cbn [negb].
    rewrite Hloop. reflexivity.
  - split; [reflexivity |].
    rewrite existsb_app. cbn [existsb heap_event orb].
    rewrite orb_false_r.
    clear. induction (seq 0 k) as [| j js IH]; [reflexivity |].
    cbn [map concat]. rewrite existsb_app, IH. reflexivity.
Qed.

Lemma short_text_stays_on_stack_witness :
  exists k added,
    @Logv (exact_platform false) 64 sample_call reopened_logger empty_world
    = Ret (written false sample_call
             (@grow_n (exact_platform false) k reopened_logger empty_world))
    /\ calls (snd (written false sample_call
             (@grow_n (exact_platform false) k reopened_logger empty_world)))
       = calls empty_world ++ added
    /\ existsb heap_event added = false.
Proof.
  destruct (@short_text_stays_on_stack (exact_platform false)
              (map_at_least_exact false) 64 sample_call reopened_logger
              empty_world)
    as (k & added & _ & Hlogv & Hcalls & _ & Hheap).
  - lia.
  - split; [unfold valid_instant; cbn; lia
           | apply Z.leb_le; vm_compute; reflexivity].
  - unfold capacity_covers. cbn. lia.
  - apply Z.leb_le. vm_compute. reflexivity.
  - apply Z.leb_le. vm_compute. reflexivity.
  - exists k, added. auto.
Defined.

(** C5, as the code has it: a call whose formatted length exceeds 510
    bytes is formatted twice, once in the stack buffer and once in a
    dynamic buffer of exactly the formatted length plus 2, allocated once
    and released after the copy; its record ends in a line break, one
    appended by the logger if the text does not end in one already, so it
    ends in as many line breaks as the message does and in one if the
    message ends in none. *)
Theorem long_text_uses_one_dynamic_buffer {P : Platform} :
  map_at_least ->
  forall (fuel : nat) (c : LogCall) (self : PmdkLogger) (w : World),
    (64 <= fuel)%nat -> valid_call c -> capacity_covers self ->
    now_off_ self + record_length c + kGrowth <= two64 ->
    kStackBufferSize - 2 < formatted_length c ->
    exists k : nat,
      let size := formatted_length c + 2 in
      let w0 := emit (EvNew size) w in
      Logv_pass fuel (c_now c) (clip_thread_id (c_thread c)) (c_format c)
                (c_arguments c) 0 0 self w
      = Ret (Continue size, (self, w)) /\
      Logv_pass fuel (c_now c) (clip_thread_id (c_thread c)) (c_format c)
                (c_arguments c) 1 size self w
      = Ret (Break, written true c (grow_n k self w0)) /\
      Logv fuel c self w = Ret (written true c (grow_n k self w0)) /\
      calls (snd (written true c (grow_n k self w0)))
      = calls w
        ++ EvNew size
        :: concat (map (growth_calls self w0) (seq 0 k))
        ++ [EvMemcpy (mmap_base_ (fst (grow_n k self w0)) + now_off_ self)
                     (record c) PMEM_F_MEM_NONTEMPORAL;
            EvDelete] /\
      last (record c) NUL = LF /\
      (record c = header c ++ message c \/
       record c = (header c ++ message c) ++ [LF]) /\
      trailing_breaks (record c) = Nat.max 1 (trailing_breaks (message c)).
Proof.
  intros contract fuel c self w enough Hvalid Hcov Hrange Hlong.
  assert (negb (formatted_length c <=? kStackBufferSize - 2) = true) as Hd
    by (apply Z.leb_gt in Hlong; rewrite Hlong; reflexivity).
  destruct (Logv_calls fuel c self w true
              (emit (EvNew (formatted_length c + 2)) w) contract Hvalid Hcov
              Hrange enough) as (k & Hloop & Hlogv & Hcalls).
  { symmetry. exact Hd. }
  { reflexivity. }
  exists k. cbv zeta.
  split; [apply Logv_pass_overflows; assumption |].
  split.
  { rewrite Logv_pass_fits
      by (try exact Hvalid; change (1 =? 0) with false; cbv iota; lia).
    change (1 =? 0) with false. cbv iota. cbn [negb].
    rewrite Hloop. reflexivity. }
  split; [exact Hlogv |].
  split.
  { rewrite Hcalls. unfold emit at 1. cbn [calls].
    rewrite <- app_assoc. reflexivity. }
  split; [apply record_ends_in_break |].
  split.
  { destruct (record_cases c) as [[_ E] | [_ E]]; [left | right]; exact E. }
  apply record_trailing_breaks. apply Hvalid.
Qed.

Lemma long_text_uses_one_dynamic_buffer_witness :
  exists k,
    @Logv (exact_platform false) 64 long_double_break_call fresh_logger
          empty_world
    = Ret (written true long_double_break_call
             (@grow_n (exact_platform false) k fresh_logger
                (emit (EvNew (formatted_length long_double_break_call + 2))
                      empty_world))).
Proof.
  destruct (@long_text_uses_one_dynamic_buffer (exact_platform false)
              (map_at_least_exact false) 64 long_double_break_call
              fresh_logger empty_world) as (k & _ & _ & Hlogv & _).
  - lia.
  - split; [unfold valid_instant; cbn; lia
           | apply Z.leb_le; vm_compute; reflexivity].
  - unfold capacity_covers. cbn. lia.
  - apply Z.leb_le. vm_compute. reflexivity.
  - apply Z.ltb_lt. vm_compute. reflexivity.
  - exists k. exact Hlogv.
Defined.

(** The record of a long message that ends in two line breaks ends in two
    line breaks, not in exactly one. *)
Lemma long_record_with_two_breaks :
  kStackBufferSize - 2 < formatted_length long_double_break_call /\
  exists s src,
    @Logv (exact_platform false) 64 long_double_break_call fresh_logger
          empty_world = Ret s /\
    calls (snd s)
    = [EvNew 638; EvMemcpy 65536 src PMEM_F_MEM_NONTEMPORAL; EvDelete] /\
    src = chars "2026/10/30-08:05:59.001234 140213 "
          ++ repeat "0"%char 599 ++ chars "7" ++ [LF; LF] /\
    trailing_breaks src = 2%nat /\
    trailing_breaks src <> 1%nat.
Proof.
  split; [apply Z.ltb_lt; vm_compute; reflexivity |].
  eexists. eexists.
  split; [vm_compute; reflexivity |].
  split; [vm_compute; reflexivity |].
  split; [vm_compute; reflexivity |].
  split; [vm_compute; reflexivity | vm_compute; discriminate].
Qed.

(** C6, as the code has it: the record an append commits ends in a line
    break.  The append makes one copy, of exactly the record, to the old
    logical offset, and advances the offset by the length of the record.
    If the last character of the text is not a line break, one is
    appended; if it is one, nothing is appended; an empty message gives
    the header, whose last character is a space, and one line break.  The
    record therefore ends in as many line breaks as the message, and in
    exactly one if the message ends in at most one. *)
Theorem record_ends_in_line_break {P : Platform} :
  map_at_least ->
  forall (fuel : nat) (c : LogCall) (self : PmdkLogger) (w : World),
    (64 <= fuel)%nat -> valid_call c -> capacity_covers self ->
    now_off_ self + record_length c + kGrowth <= two64 ->
    exists (s : PmdkLogger * World) (before after : list event),
      Logv fuel c self w = Ret s /\
      calls (snd s)
      = calls w ++ before
        ++ EvMemcpy (mmap_base_ (fst s) + now_off_ self) (record c)
                    PMEM_F_MEM_NONTEMPORAL
           :: after /\
      (forall dest src flags,
         ~ In (EvMemcpy dest src flags) (before ++ after)) /\
      now_off_ (fst s) = now_off_ self + Z.of_nat (length (record c)) /\
      media (snd s) = store (media w) (now_off_ self) (record c) /\
      load (media (snd s)) (now_off_ self) (length (record c)) = record c /\
      last (record c) NUL = LF /\
      (last (header c ++ message c) NUL <> LF ->
       record c = (header c ++ message c) ++ [LF]) /\
      (last (header c ++ message c) NUL = LF ->
       record c = header c ++ message c) /\
      (message c = [] ->
       record c = header c ++ [LF] /\ last (header c) NUL = SP) /\
      trailing_breaks (record c) = Nat.max 1 (trailing_breaks (message c)) /\
      ((trailing_breaks (message c) <= 1)%nat ->
       trailing_breaks (record c) = 1%nat).
Proof.
  intros contract fuel c self w enough Hvalid Hcov Hrange.
  destruct (Logv_calls fuel c self w _ _ contract Hvalid Hcov Hrange enough
              eq_refl eq_refl) as (k & _ & Hlogv & Hcalls).
  set (dynamic := negb (formatted_length c <=? kStackBufferSize - 2)) in *.
  set (w0 := if dynamic then emit (EvNew (formatted_length c + 2)) w
             else w) in *.
  destruct (written_fields dynamic c (grow_n k self w0))
    as (_ & Hb & _ & Ho & _ & Hm).
  destruct (grow_n_frame k self w0) as (_ & Ho' & Hm').
  assert (media w0 = media w) as Hm0
    by (subst w0; destruct dynamic; reflexivity).
  assert (calls w0
          = calls w ++ (if dynamic then [EvNew (formatted_length c + 2)]
                        else [])) as Hc0
    by (subst w0; destruct dynamic;
        [reflexivity | symmetry; apply app_nil_r]).
  pose proof (record_length_nonneg c) as Hlen0.
  pose proof (record_trailing_breaks c (proj1 Hvalid)) as Hbreaks.
  exists (written dynamic c (grow_n k self w0)),
         ((if dynamic then [EvNew (formatted_length c + 2)] else [])
          ++ concat (map (growth_calls self w0) (seq 0 k))),
         (if dynamic then [EvDelete] else []).
  split; [exact Hlogv |].
  split; [rewrite Hcalls, Hb, Hc0, <- !app_assoc; reflexivity |].
  split.
  { intros dest src flags Hin.
    apply in_app_or in Hin as [Hin | Hin];
      [apply in_app_or in Hin as [Hin | Hin] |].
    - destruct dynamic; [destruct Hin as [E | []]; discriminate E
                        | destruct Hin].
    - apply in_concat in Hin as (l & Hl & Hin).
      apply in_map_iff in Hl as (j & <- & _).
      unfold growth_calls in Hin.
      destruct Hin as [E | [E | []]]; discriminate E.
    - destruct dynamic; [destruct Hin as [E | []]; discriminate E
                        | destruct Hin]. }
  split.
  { rewrite Ho, Ho', <- record_length_eq. apply wrap64_small.
    destruct Hcov. rewrite kGrowth_value in *. lia. }
  assert (media (snd (written dynamic c (grow_n k self w0)))
          = store (media w) (now_off_ self) (record c)) as Hmedia
    by (rewrite Hm, Ho', Hm', Hm0; reflexivity).
  split; [exact Hmedia |].
  split; [rewrite Hmedia; apply load_store |].
  split; [apply record_ends_in_break |].
  split; [intros E; destruct (record_cases c) as [[E' _] | [_ R]];
          [contradiction | exact R] |].
  split; [intros E; destruct (record_cases c) as [[_ R] | [E' _]];
          [exact R | contradiction] |].
  split; [| split; [exact Hbreaks | intros H; rewrite Hbreaks; lia]].
  intros Hempty.
  destruct (header_ends_in_space c (proj1 Hvalid)) as [pre Hpre].
  assert (last (header c) NUL = SP) as Hsp
    by (rewrite Hpre; apply last_last).
  split; [| exact Hsp].
  destruct (record_cases c) as [[E _] | [_ R]].
  - rewrite Hempty, app_nil_r, Hsp in E. discriminate.
  - rewrite R, Hempty, app_nil_r. reflexivity.
Qed.

Lemma record_ends_in_line_break_witness :
  exists s before after,
    @Logv (exact_platform true) 64 empty_call fresh_logger empty_world
    = Ret s /\
    calls (snd s)
    = before
      ++ EvMemcpy (mmap_base_ (fst s) + 0) (record empty_call)
                  PMEM_F_MEM_NONTEMPORAL :: after /\
    now_off_ (fst s) = 35 /\
    record empty_call = header empty_call ++ [LF].
Proof.
  destruct (@record_ends_in_line_break (exact_platform true)
              (map_at_least_exact true) 64 empty_call fresh_logger
              empty_world)
    as (s & before & after & Hs & Hcalls & _ & Ho & _ & _ & _ & _ & _
        & Hempty & _).
  - lia.
  - split; [unfold valid_instant; cbn; lia
           | apply Z.leb_le; vm_compute; reflexivity].
  - unfold capacity_covers. cbn. lia.
  - apply Z.leb_le. vm_compute. reflexivity.
  - exists s, before, after. split; [exact Hs |]. split; [exact Hcalls |].
    split; [rewrite Ho; vm_compute; reflexivity |].
    apply Hempty. reflexivity.
Defined.

(** The record of a message that ends in two line breaks ends in two line
    breaks, not in exactly one. *)
Lemma record_with_two_breaks :
  exists s src,
    @Logv (exact_platform false) 64 double_break_call fresh_logger
          empty_world = Ret s /\
    calls (snd s) = [EvMemcpy 65536 src PMEM_F_MEM_NONTEMPORAL] /\
    src = chars "2026/10/30-08:05:59.001234 140213 a" ++ [LF; LF] /\
    trailing_breaks src = 2%nat /\
    trailing_breaks src <> 1%nat.
Proof.
  eexists. eexists.
  split; [vm_compute; reflexivity |].
  split; [vm_compute; reflexivity |].
  split; [vm_compute; reflexivity |].
  split; [vm_compute; reflexivity | vm_compute; discriminate].
Qed.

(** ** Reading decimal fields back *)

Lemma digit_value_digit (d : Z) : 0 <= d < 10 -> digit_value (digit d) = d.
Proof.
  intros H.
  assert (d = 0 \/ d = 1 \/ d = 2 \/ d = 3 \/ d = 4 \/ d = 5 \/ d = 6
          \/ d = 7 \/ d = 8 \/ d = 9) as E by lia.
  repeat (destruct E as [-> | E]; [reflexivity |]).
  subst d; reflexivity.
Qed.

(** Value of a text of digits given least significant digit first. *)
Lemma decimal_value_rev (ds : list ascii) :
  decimal_value (rev ds)
  = fold_right (fun c acc => 10 * acc + digit_value c) 0 ds.
Proof.
  unfold decimal_value. rewrite <- fold_left_rev_right, rev_involutive.
  reflexivity.
Qed.

Lemma digits_rev_value (fuel : nat) :
  forall n, 0 <= n < 2 ^ Z.of_nat (S fuel) ->
    fold_right (fun c acc => 10 * acc + digit_value c) 0
               (digits_rev (S fuel) n)
    = n.
Proof.
  induction fuel as [| fuel IH]; intros n Hn.
  - change (2 ^ Z.of_nat 1) with 2 in Hn.
    cbn [digits_rev]. rewrite (Z.div_small n 10) by lia.
    rewrite Z.mod_small by lia. cbn [Z.eqb fold_right].
    rewrite digit_value_digit by lia. lia.
  - change (digits_rev (S (S fuel)) n)
      with (digit (n mod 10) ::
            (if n / 10 =? 0 then [] else digits_rev (S fuel) (n / 10))).
    cbn [fold_right].
    rewrite digit_value_digit by (apply Z.mod_pos_bound; lia).
    pose proof (Z.div_mod n 10 ltac:(lia)) as Hdm.
    destruct (n / 10 =? 0) eqn:E.
    + apply Z.eqb_eq in E. cbn [fold_right]. lia.
    + rewrite IH; [lia |].
      replace (Z.of_nat (S (S fuel))) with (1 + Z.of_nat (S fuel)) in Hn
        by lia.
      rewrite Z.pow_add_r in Hn by lia. change (2 ^ 1) with 2 in Hn.
      pose proof (Z.mod_pos_bound n 10 ltac:(lia)) as Hm.
      split; [apply Z.div_pos; lia |].
      apply Z.div_lt_upper_bound; lia.
Qed.

Lemma decimal_value_decimal (n : Z) : 0 <= n -> decimal_value (decimal n) = n.
Proof.
  intros Hn. unfold decimal. rewrite decimal_value_rev.
  apply digits_rev_value. split; [exact Hn |].
  destruct (Z.eq_dec n 0) as [-> | Hpos]; [reflexivity |].
  pose proof (Z.log2_spec n ltac:(lia)) as [_ Hlog].
  pose proof (Z.log2_nonneg n) as Hl0.
  replace (Z.of_nat (S (Z.to_nat (Z.log2 n)))) with (Z.succ (Z.log2 n))
    by lia.
  exact Hlog.
Qed.

Lemma decimal_value_zeros (p : nat) (ds : list ascii) :
  decimal_value (repeat "0"%char p ++ ds) = decimal_value ds.
Proof.
  unfold decimal_value. rewrite fold_left_app. f_equal.
  induction p as [| p IH]; [reflexivity |].
  cbn [repeat fold_left]. exact IH.
Qed.

(** A number printed with [%0wd] reads back as itself. *)
Lemma fmt_d_value (width n : Z) :
  0 <= n -> decimal_value (fmt_d true width n) = n.
Proof.
  intros Hn. unfold fmt_d.
  replace (n <? 0) with false by (symmetry; apply Z.ltb_ge; lia).
  rewrite Z.abs_eq by lia. cbn [app].
  rewrite decimal_value_zeros. apply decimal_value_decimal. exact Hn.
Qed.

Lemma slice_field (pre x rest : list ascii) (off n : nat) :
  length pre = off -> length x = n -> slice off n (pre ++ x ++ rest) = x.
Proof.
  intros <- <-. unfold slice.
  rewrite skipn_app, skipn_all, Nat.sub_diag. cbn [skipn app].
  rewrite firstn_app, firstn_all, Nat.sub_diag. cbn [firstn].
  apply app_nil_r.
Qed.

(** The stamp of a header: its shape, and the time it reads back as. *)
Lemma header_stamp (now : instant) (thread_id : string) :
  valid_instant now ->
  exists stamp,
    render header_format (header_args now thread_id)
    = stamp ++ SP :: chars thread_id ++ [SP] /\
    length stamp = 26%nat /\
    has_shape stamp_pattern stamp = true /\
    decimal_value (slice 0 4 stamp) = tm_year (now_components now) + 1900 /\
    decimal_value (slice 5 2 stamp) = tm_mon (now_components now) + 1 /\
    decimal_value (slice 8 2 stamp) = tm_mday (now_components now) /\
    decimal_value (slice 11 2 stamp) = tm_hour (now_components now) /\
    decimal_value (slice 14 2 stamp) = tm_min (now_components now) /\
    decimal_value (slice 17 2 stamp) = tm_sec (now_components now) /\
    decimal_value (slice 20 6 stamp) = tv_usec now.
Proof.
  intros Hnow. pose proof Hnow as (Hy & Hmo & Hd & Hh & Hmi & Hs & Hu).
  rewrite header_unfold, fmt_s_plain.
  destruct (fmt_d_width 3 4 10000 (tm_year (now_components now) + 1900))
    as [Ly Dy]; [reflexivity | reflexivity | lia |].
  destruct (fmt_d_width 1 2 100 (tm_mon (now_components now) + 1))
    as [Lmo Dmo]; [reflexivity | reflexivity | lia |].
  destruct (fmt_d_width 1 2 100 (tm_mday (now_components now)))
    as [Ld Dd]; [reflexivity | reflexivity | lia |].
  destruct (fmt_d_width 1 2 100 (tm_hour (now_components now)))
    as [Lh Dh]; [reflexivity | reflexivity | lia |].
  destruct (fmt_d_width 1 2 100 (tm_min (now_components now)))
    as [Lmi Dmi]; [reflexivity | reflexivity | lia |].
  destruct (fmt_d_width 1 2 100 (tm_sec (now_components now)))
    as [Ls Ds]; [reflexivity | reflexivity | lia |].
  destruct (fmt_d_width 5 6 1000000 (tv_usec now))
    as [Lu Du]; [reflexivity | reflexivity | lia |].
  pose proof (fmt_d_value 4 (tm_year (now_components now) + 1900)
                ltac:(lia)) as Vy.
  pose proof (fmt_d_value 2 (tm_mon (now_components now) + 1)
                ltac:(lia)) as Vmo.
  pose proof (fmt_d_value 2 (tm_mday (now_components now)) ltac:(lia))
    as Vd.
  pose proof (fmt_d_value 2 (tm_hour (now_components now)) ltac:(lia))
    as Vh.
  pose proof (fmt_d_value 2 (tm_min (now_components now)) ltac:(lia))
    as Vmi.
  pose proof (fmt_d_value 2 (tm_sec (now_components now)) ltac:(lia))
    as Vs.
  pose proof (fmt_d_value 6 (tv_usec now) ltac:(lia)) as Vu.
  set (y := fmt_d true 4 _) in *. set (mo := fmt_d true 2 _) in *.
  set (d := fmt_d true 2 (tm_mday _)) in *.
  set (h := fmt_d true 2 (tm_hour _)) in *.
  set (mi := fmt_d true 2 (tm_min _)) in *.
  set (s := fmt_d true 2 (tm_sec _)) in *.
  set (u := fmt_d true 6 _) in *.
  exists (y ++ "/"%char :: mo ++ "/"%char :: d ++ "-"%char :: h
          ++ ":"%char :: mi ++ ":"%char :: s ++ "."%char :: u).
  split; [repeat (rewrite <- app_assoc; cbn [app]); reflexivity |].
  split; [repeat (rewrite length_app; cbn [length]); lia |].
  split.
  { change stamp_pattern with
      (repeat "Y"%char 4 ++ "/"%char :: repeat "M"%char 2
       ++ "/"%char :: repeat "D"%char 2 ++ "-"%char :: repeat "H"%char 2
       ++ ":"%char :: repeat "M"%char 2 ++ ":"%char :: repeat "S"%char 2
       ++ "."%char :: repeat "U"%char 6).
    rewrite <- Lu, <- Ly. rewrite <- Lmo at 1. rewrite <- Ld at 1.
    rewrite <- Lh at 1. rewrite <- Lmi at 1. rewrite <- Ls.
    rewrite !has_shape_field by (assumption || reflexivity).
    apply has_shape_digits; [reflexivity | assumption]. }
  repeat split.
  - match goal with
    | |- decimal_value (slice _ _ ?l) = _ =>
        replace l with (([]) ++ y ++ "/"%char :: mo ++ "/"%char :: d ++ "-"%char :: h ++ ":"%char :: mi ++ ":"%char :: s ++ "."%char :: u)
          by (repeat (rewrite <- app_assoc; cbn [app]);
              rewrite ?app_nil_r; reflexivity)
    end.
    rewrite slice_field; [exact Vy | | exact Ly].
    repeat (rewrite length_app; cbn [length]).
    reflexivity.
  - match goal with
    | |- decimal_value (slice _ _ ?l) = _ =>
        replace l with ((y ++ ["/"%char]) ++ mo ++ "/"%char :: d ++ "-"%char :: h ++ ":"%char :: mi ++ ":"%char :: s ++ "."%char :: u)
          by (repeat (rewrite <- app_assoc; cbn [app]);
              rewrite ?app_nil_r; reflexivity)
    end.
    rewrite slice_field; [exact Vmo | | exact Lmo].
    repeat (rewrite length_app; cbn [length]).
    rewrite Ly. reflexivity.
  - match goal with
    | |- decimal_value (slice _ _ ?l) = _ =>
        replace l with ((y ++ "/"%char :: mo ++ ["/"%char]) ++ d ++ "-"%char :: h ++ ":"%char :: mi ++ ":"%char :: s ++ "."%char :: u)
          by (repeat (rewrite <- app_assoc; cbn [app]);
              rewrite ?app_nil_r; reflexivity)
    end.
    rewrite slice_field; [exact Vd | | exact Ld].
    repeat (rewrite length_app; cbn [length]).
    rewrite Ly, Lmo. reflexivity.
  - match goal with
    | |- decimal_value (slice _ _ ?l) = _ =>
        replace l with ((y ++ "/"%char :: mo ++ "/"%char :: d ++ ["-"%char]) ++ h ++ ":"%char :: mi ++ ":"%char :: s ++ "."%char :: u)
          by (repeat (rewrite <- app_assoc; cbn [app]);
              rewrite ?app_nil_r; reflexivity)
    end.
    rewrite slice_field; [exact Vh | | exact Lh].
    repeat (rewrite length_app; cbn [length]).
    rewrite Ly, Lmo, Ld. reflexivity.
  - match goal with
    | |- decimal_value (slice _ _ ?l) = _ =>
        replace l with ((y ++ "/"%char :: mo ++ "/"%char :: d ++ "-"%char :: h ++ [":"%char]) ++ mi ++ ":"%char :: s ++ "."%char :: u)
          by (repeat (rewrite <- app_assoc; cbn [app]);
              rewrite ?app_nil_r; reflexivity)
    end.
    rewrite slice_field; [exact Vmi | | exact Lmi].
    repeat (rewrite length_app; cbn [length]).
    rewrite Ly, Lmo, Ld, Lh. reflexivity.
  - match goal with
    | |- decimal_value (slice _ _ ?l) = _ =>
        replace l with ((y ++ "/"%char :: mo ++ "/"%char :: d ++ "-"%char :: h ++ ":"%char :: mi ++ [":"%char]) ++ s ++ "."%char :: u)
          by (repeat (rewrite <- app_assoc; cbn [app]);
              rewrite ?app_nil_r; reflexivity)
    end.
    rewrite slice_field; [exact Vs | | exact Ls].
    repeat (rewrite length_app; cbn [length]).
    rewrite Ly, Lmo, Ld, Lh, Lmi. reflexivity.
  - match goal with
    | |- decimal_value (slice _ _ ?l) = _ =>
        replace l with ((y ++ "/"%char :: mo ++ "/"%char :: d ++ "-"%char :: h ++ ":"%char :: mi ++ ":"%char :: s ++ ["."%char]) ++ u ++ [])
          by (repeat (rewrite <- app_assoc; cbn [app]);
              rewrite ?app_nil_r; reflexivity)
    end.
    rewrite slice_field; [exact Vu | | exact Lu].
    repeat (rewrite length_app; cbn [length]).
    rewrite Ly, Lmo, Ld, Lh, Lmi, Ls. reflexivity.
Qed.

Lemma last_of_app {A : Type} (l l' : list A) (d : A) :
  l' <> [] -> last (l ++ l') d = last l' d.
Proof.
  intros H. destruct (exists_last H) as (m & a & ->).
  rewrite app_assoc, !last_last. reflexivity.
Qed.

(** C9: at a time [now] of a four-digit year and for a thread id [thread],
    [Logv("%s=%d", "x", 5)] commits one record: a stamp of the shape
    YYYY/MM/DD-HH:MM:SS.UUUUUU whose digits are the year, month, day,
    hour, minute, second and microseconds of [now], a space, the thread
    id cut to its first 32 characters, a space, [x=5] and a single line
    break; the logical offset advances by the length of that record. *)
Theorem sample_line {P : Platform} :
  map_at_least ->
  forall (fuel : nat) (now : instant) (thread : string)
         (self : PmdkLogger) (w : World),
    let c := mkCall now thread "%s=%d" [ArgStr "x"; ArgInt 5] in
    (64 <= fuel)%nat -> valid_instant now -> capacity_covers self ->
    now_off_ self + record_length c + kGrowth <= two64 ->
    exists (stamp : list ascii) (s : PmdkLogger * World),
      has_shape stamp_pattern stamp = true /\
      length stamp = 26%nat /\
      decimal_value (slice 0 4 stamp) = tm_year (now_components now) + 1900 /\
      decimal_value (slice 5 2 stamp) = tm_mon (now_components now) + 1 /\
      decimal_value (slice 8 2 stamp) = tm_mday (now_components now) /\
      decimal_value (slice 11 2 stamp) = tm_hour (now_components now) /\
      decimal_value (slice 14 2 stamp) = tm_min (now_components now) /\
      decimal_value (slice 17 2 stamp) = tm_sec (now_components now) /\
      decimal_value (slice 20 6 stamp) = tv_usec now /\
      record c
      = stamp ++ SP :: chars (clip_thread_id thread)
        ++ SP :: chars "x=5" ++ [LF] /\
      (length (chars (clip_thread_id thread)) <= 32)%nat /\
      ((String.length thread <= 32)%nat -> clip_thread_id thread = thread) /\
      ((32 < String.length thread)%nat ->
       clip_thread_id thread = substring 0 32 thread) /\
      trailing_breaks (record c) = 1%nat /\
      Logv fuel c self w = Ret s /\
      now_off_ (fst s) = now_off_ self + Z.of_nat (length (record c)) /\
      media (snd s) = store (media w) (now_off_ self) (record c) /\
      load (media (snd s)) (now_off_ self) (length (record c)) = record c.
Proof.
  intros contract fuel now thread self w c enough Hnow Hcov Hrange.
  assert (message c = chars "x=5") as Hmsg
    by (rewrite <- message_eq; reflexivity).
  destruct (header_stamp now (clip_thread_id thread) Hnow)
    as (stamp & Hhdr & Hlen & Hshape & Vy & Vmo & Vd & Vh & Vmi & Vs & Vu).
  assert (header c = stamp ++ SP :: chars (clip_thread_id thread) ++ [SP])
    as Hheader by (rewrite <- header_eq; exact Hhdr).
  assert (record c = (header c ++ message c) ++ [LF]) as Hrec.
  { destruct (record_cases c) as [[E _] | [_ R]]; [| exact R].
    rewrite Hmsg, last_of_app in E by discriminate.
    discriminate E. }
  pose proof (clip_thread_id_length thread) as Hclip.
  assert (valid_call c) as Hvalid.
  { split; [exact Hnow |].
    rewrite formatted_length_eq, Hheader, Hmsg.
    repeat (rewrite length_app; cbn [length]).
    rewrite Hlen. unfold INT_MAX. cbn [chars list_ascii_of_string length].
    lia. }
  destruct (Logv_effect fuel c self w contract Hvalid Hcov Hrange enough)
    as (s & Hs & _ & Ho & _ & _ & Hm).
  exists stamp, s.
  split; [exact Hshape |]. split; [exact Hlen |].
  split; [exact Vy |]. split; [exact Vmo |]. split; [exact Vd |].
  split; [exact Vh |]. split; [exact Vmi |]. split; [exact Vs |].
  split; [exact Vu |].
  split.
  { rewrite Hrec, Hheader, Hmsg.
    repeat (rewrite <- app_assoc; cbn [app]). reflexivity. }
  split; [exact Hclip |].
  split; [apply clip_thread_id_short |].
  split.
  { intros Hlong. unfold clip_thread_id, kMaxThreadIdSize.
    replace (32 <? Z.of_nat (String.length thread)) with true
      by (symmetry; apply Z.ltb_lt; lia).
    reflexivity. }
  split.
  { rewrite (record_trailing_breaks c Hnow), Hmsg. reflexivity. }
  split; [exact Hs |].
  split; [rewrite Ho, record_length_eq; reflexivity |].
  split; [exact Hm |].
  rewrite Hm. apply load_store.
Qed.

Lemma sample_line_witness :
  exists stamp s,
    has_shape stamp_pattern stamp = true /\
    decimal_value (slice 0 4 stamp) = 2026 /\
    decimal_value (slice 20 6 stamp) = 1234 /\
    record sample_call = stamp ++ chars " 140213 x=5" ++ [LF] /\
    @Logv (exact_platform false) 64 sample_call fresh_logger empty_world
    = Ret s /\
    now_off_ (fst s) = 38.
Proof.
  destruct (@sample_line (exact_platform false) (map_at_least_exact false)
              64 sample_instant "140213" fresh_logger empty_world)
    as (stamp & s & Hshape & _ & Vy & _ & _ & _ & _ & _ & Vu & Hrec
        & _ & _ & _ & _ & Hs & Ho & _).
  - lia.
  - unfold valid_instant. cbn. lia.
  - unfold capacity_covers. cbn. lia.
  - apply Z.leb_le. vm_compute. reflexivity.
  - exists stamp, s. split; [exact Hshape |].
    split; [exact Vy |]. split; [exact Vu |]. split; [exact Hrec |].
    split; [exact Hs |]. rewrite Ho. vm_compute. reflexivity.
Defined.

Example sample_line_text :
  exists s,
    @Logv (exact_platform false) 64 sample_call fresh_logger empty_world
    = Ret s /\
    calls (snd s)
    = [EvMemcpy 65536
         (chars "2026/10/30-08:05:59.001234 140213 x=5" ++ [LF])
         PMEM_F_MEM_NONTEMPORAL] /\
    now_off_ (fst s) = 38.
Proof.
  eexists. split; [vm_compute; reflexivity |].
  split; vm_compute; reflexivity.
Qed.

(** ** Growth and disposal *)

Section Rounds.

Context {P : Platform}.

(** A round of the loop that starts below [2^64 - 32 MiB] asks for the
    capacity plus 32 MiB and adopts the size reported. *)
Lemma grow_round_adopts (self : PmdkLogger) (w : World) (j : nat) :
  0 <= length_ (fst (grow_n j self w)) ->
  length_ (fst (grow_n j self w)) + kGrowth < two64 ->
  length_ (fst (grow_n (S j) self w))
  = snd (pmem_map_file
           (calls (snd (grow_n j self w))
            ++ [EvUnmap (mmap_base_ (fst (grow_n j self w)))
                        (length_ (fst (grow_n j self w)))])
           (filename_ self)
           (length_ (fst (grow_n j self w)) + kGrowth)
           [PMEM_FILE_CREATE; PMEM_FILE_SPARSE] mode_0666).
Proof.
  intros Hpos Hreq.
  destruct (grow_n_frame j self w) as (Hf & _ & _).
  cbn [grow_n]. destruct (grow_n j self w) as [self' w'].
  cbn [fst snd] in *.
  destruct (grow_step_fields self' w') as (_ & _ & _ & _ & ->).
  rewrite wrap64_small by (rewrite kGrowth_value in *; lia).
  rewrite Hf. reflexivity.
Qed.

(** Disposal of a logger that holds a mapping. *)
Lemma PmdkLogger_delete_live (self : PmdkLogger) (w : World) :
  mmap_base_ self <> 0 ->
  PmdkLogger_delete self w
  = (let remap :=
       pmem_map_file (calls w ++ [EvUnmap (mmap_base_ self) (length_ self)])
                     (filename_ self) (wrap64 (now_off_ self + 1))
                     [PMEM_FILE_CREATE] mode_0666 in
     (mkLogger (filename_ self) (fst remap) (snd remap) (now_off_ self),
      mkWorld (calls w
               ++ [EvUnmap (mmap_base_ self) (length_ self);
                   EvMapFile (filename_ self) (wrap64 (now_off_ self + 1))
                             [PMEM_FILE_CREATE] mode_0666;
                   EvUnmap (fst remap) (snd remap)])
              (media w))).
Proof.
  intros Hbase. unfold PmdkLogger_delete, emit.
  apply Z.eqb_neq in Hbase. rewrite Hbase. cbn [negb calls media].
  cbv zeta.
  destruct (pmem_map_file _ _ _ _ _) as [base new_size].
  cbn [fst snd mmap_base_ length_ calls media].
  rewrite <- !app_assoc. reflexivity.
Qed.

End Rounds.

(** C2, as the code has it: when the record does not fit, the growth loop
    runs at least one round; each round unmaps the mapping, maps the same
    file again asking for the capacity plus 32 MiB with sparse allocation
    and adopts the size reported; the rounds go on while the capacity is
    short and end with a capacity that holds the record.  The capacity
    grows strictly, by at least 32 MiB a round, and by exactly 32 MiB a
    round when the mapping service reports exactly the size asked for. *)
Theorem growth_reaches_requirement {P : Platform} :
  map_at_least ->
  forall (fuel : nat) (c : LogCall) (self : PmdkLogger) (w : World),
    (64 <= fuel)%nat -> valid_call c -> capacity_covers self ->
    now_off_ self + record_length c + kGrowth <= two64 ->
    length_ self < now_off_ self + record_length c ->
    exists (dynamic : bool) (w0 : World) (k : nat),
      (1 <= k)%nat /\
      Logv fuel c self w = Ret (written dynamic c (grow_n k self w0)) /\
      calls (snd (grow_n k self w0))
      = calls w0 ++ concat (map (growth_calls self w0) (seq 0 k)) /\
      (forall j, (j < k)%nat ->
         length_ (fst (grow_n j self w0)) < now_off_ self + record_length c
         /\
         length_ (fst (grow_n (S j) self w0))
         = snd (pmem_map_file
                  (calls (snd (grow_n j self w0))
                   ++ [EvUnmap (mmap_base_ (fst (grow_n j self w0)))
                               (length_ (fst (grow_n j self w0)))])
                  (filename_ self)
                  (length_ (fst (grow_n j self w0)) + kGrowth)
                  [PMEM_FILE_CREATE; PMEM_FILE_SPARSE] mode_0666)) /\
      now_off_ self + record_length c <= length_ (fst (grow_n k self w0)) /\
      length_ self + Z.of_nat k * kGrowth
      <= length_ (fst (grow_n k self w0)) /\
      length_ self < length_ (fst (grow_n k self w0)) /\
      (map_exact ->
       length_ (fst (grow_n k self w0))
       = length_ self + Z.of_nat k * kGrowth).
Proof.
  intros contract fuel c self w enough Hvalid Hcov Hrange Hshort.
  destruct (Logv_step fuel c self w _ _ contract Hvalid Hcov Hrange enough
              eq_refl eq_refl) as (k & _ & Hlogv & Hrun & Hfit).
  set (dynamic := negb (formatted_length c <=? kStackBufferSize - 2)) in *.
  set (w0 := if dynamic then emit (EvNew (formatted_length c + 2)) w
             else w) in *.
  pose proof (record_length_nonneg c) as Hc0.
  destruct (grow_n_capacity contract (record_length c) self w0 Hcov Hc0
              Hrange k Hrun) as (Hcap & Hcalls & Hexact).
  assert (forall j, (j < k)%nat ->
            length_ self <= length_ (fst (grow_n j self w0))
            /\ length_ (fst (grow_n j self w0))
               < now_off_ self + record_length c) as Hshort_j.
  { intros j Hj.
    destruct (grow_n_capacity contract (record_length c) self w0 Hcov Hc0
                Hrange j) as (Hcap_j & _);
      [intros i Hi; apply Hrun; lia |].
    pose proof (Hrun j Hj) as Hneed.
    destruct (grow_n_frame j self w0) as (_ & Ho & _).
    rewrite needs_growth_small in Hneed
      by (rewrite Ho; destruct Hcov; rewrite kGrowth_value in *; lia).
    rewrite Ho in Hneed. apply Z.ltb_lt in Hneed.
    rewrite kGrowth_value in *. lia. }
  assert (1 <= k)%nat as Hk.
  { destruct k as [| k]; [| lia]. cbn [grow_n fst] in Hfit. lia. }
  exists dynamic, w0, k.
  split; [exact Hk |]. split; [exact Hlogv |]. split; [exact Hcalls |].
  split.
  { intros j Hj. destruct (Hshort_j j Hj) as [Hlow Hhigh].
    split; [exact Hhigh |].
    apply grow_round_adopts;
      destruct Hcov; rewrite kGrowth_value in *; lia. }
  split; [exact Hfit |]. split; [exact Hcap |].
  split; [rewrite kGrowth_value in *; lia | exact Hexact].
Qed.

Lemma growth_reaches_requirement_witness :
  exists dynamic w0 k,
    (1 <= k)%nat /\
    @Logv (exact_platform false) 64 sample_call reopened_logger empty_world
    = Ret (written dynamic sample_call
             (@grow_n (exact_platform false) k reopened_logger w0)) /\
    length_ (fst (@grow_n (exact_platform false) k reopened_logger w0))
    = 100 + Z.of_nat k * kGrowth.
Proof.
  destruct (@growth_reaches_requirement (exact_platform false)
              (map_at_least_exact false) 64 sample_call reopened_logger
              empty_world)
    as (dynamic & w0 & k & Hk & Hlogv & _ & _ & _ & _ & _ & Hexact).
  - lia.
  - split; [unfold valid_instant; cbn; lia
           | apply Z.leb_le; vm_compute; reflexivity].
  - unfold capacity_covers. cbn. lia.
  - apply Z.leb_le. vm_compute. reflexivity.
  - apply Z.ltb_lt. vm_compute. reflexivity.
  - exists dynamic, w0, k. split; [exact Hk |]. split; [exact Hlogv |].
    apply Hexact. apply map_exact_exact.
Defined.

(** With a mapping service that rounds sizes up to whole pages, one round
    of growth takes a region of 100 bytes to 33558528 bytes: the capacity
    grows by 33558428 bytes, which is no multiple of 32 MiB. *)
Lemma growth_by_no_multiple_of_increment :
  @map_at_least paged_platform /\
  length_ reopened_logger
  < now_off_ reopened_logger + record_length sample_call /\
  exists s,
    @Logv paged_platform 64 sample_call reopened_logger empty_world = Ret s /\
    calls (snd s)
    = [EvUnmap 65536 100;
       EvMapFile "LOG" (100 + kGrowth) [PMEM_FILE_CREATE; PMEM_FILE_SPARSE]
                 mode_0666;
       EvMemcpy (65536 + 100) (record sample_call) PMEM_F_MEM_NONTEMPORAL] /\
    length_ (fst s) = 33558528 /\
    ~ (exists m, length_ (fst s) - length_ reopened_logger = m * kGrowth).
Proof.
  split; [exact map_at_least_paged |].
  split; [apply Z.ltb_lt; vm_compute; reflexivity |].
  eexists. split; [vm_compute; reflexivity |].
  split; [vm_compute; reflexivity |].
  split; [vm_compute; reflexivity |].
  intros [m Hm]. rewrite kGrowth_value in Hm.
  change (33558528 - 100 = m * 33554432) in Hm. lia.
Qed.



(** ** Further properties of [Logv] *)

Section Agreement.

Variables P1 P2 : Platform.

Hypothesis same_service :
  forall tr path len flags mode,
    @pmem_map_file P1 tr path len flags mode
    = @pmem_map_file P2 tr path len flags mode.

Lemma grow_step_agrees (self : PmdkLogger) (w : World) :
  @grow_step P1 self w = @grow_step P2 self w.
Proof. unfold grow_step. rewrite same_service. reflexivity. Qed.

Lemma grow_loop_agrees (n : Z) (fuel : nat) :
  forall self w,
    @grow_loop P1 fuel n self w = @grow_loop P2 fuel n self w.
Proof.
  induction fuel as [| fuel IH]; intros self w; cbn [grow_loop];
    [reflexivity |].
  rewrite grow_step_agrees.
  destruct (needs_growth n self); [| reflexivity].
  destruct (@grow_step P2 self w) as [self' w']. apply IH.
Qed.

End Agreement.

(** X2: on a valid call the outcome of [Logv] depends neither on what the
    staging buffers hold before they are written nor on the build: two
    platforms with the same mapping service give the same outcome.  No
    byte that was never written reaches the log. *)
Theorem Logv_ignores_unwritten_memory :
  forall (P1 P2 : Platform),
    (forall tr path len flags mode,
       @pmem_map_file P1 tr path len flags mode
       = @pmem_map_file P2 tr path len flags mode) ->
    forall (fuel : nat) (c : LogCall) (self : PmdkLogger) (w : World),
      valid_call c ->
      @Logv P1 fuel c self w = @Logv P2 fuel c self w.
Proof.
  intros P1 P2 Hsame fuel c self w Hvalid.
  rewrite (@Logv_eq P1), (@Logv_eq P2) by exact Hvalid.
  rewrite !(grow_loop_agrees P1 P2 Hsame). reflexivity.
Qed.

Lemma Logv_ignores_unwritten_memory_witness :
  @Logv (exact_platform false) 64 sample_call reopened_logger empty_world
  = @Logv scrambled_platform 64 sample_call reopened_logger empty_world.
Proof.
  apply Logv_ignores_unwritten_memory.
  - intros tr path len flags mode. reflexivity.
  - split; [unfold valid_instant; cbn; lia
           | apply Z.leb_le; vm_compute; reflexivity].
Defined.

Section Fitting.

Context {P : Platform}.

Lemma grow_loop_fits (n : Z) (fuel : nat) (self : PmdkLogger) (w : World) :
  0 <= now_off_ self + n < two64 ->
  now_off_ self + n <= length_ self ->
  grow_loop fuel n self w = Ret (self, w).
Proof.
  intros Hrange Hfit.
  assert (needs_growth n self = false) as E
    by (rewrite needs_growth_small by exact Hrange; apply Z.ltb_ge; lia).
  destruct fuel; cbn [grow_loop]; rewrite E; reflexivity.
Qed.

Lemma grow_loop_stalls (n bound : Z) (fuel : nat) :
  (forall tr path len flags mode,
     snd (pmem_map_file tr path len flags mode) < bound) ->
  0 <= bound < two64 ->
  forall self w,
    now_off_ self + n = bound -> length_ self < bound ->
    grow_loop fuel n self w = NoFuel.
Proof.
  intros Hstall Hrange.
  induction fuel as [| fuel IH]; intros self w Hoff Hshort;
    cbn [grow_loop];
    rewrite needs_growth_small by (rewrite Hoff; exact Hrange);
    (replace (length_ self <? now_off_ self + n) with true
       by (symmetry; apply Z.ltb_lt; lia));
    [reflexivity |].
  destruct (grow_step_fields self w) as (_ & Ho & _ & _ & Hl).
  destruct (grow_step self w) as [self' w']. cbn [fst snd] in *.
  apply IH; [rewrite Ho; exact Hoff |].
  rewrite Hl. apply Hstall.
Qed.

End Fitting.

(** X3: an append whose record fits the capacity maps and unmaps nothing:
    for any mapping service and without any round of the growth loop, it
    returns with the same base and capacity, the offset advanced by the
    length of the record, and the copy as its only call to libpmem. *)
Theorem fitting_record_needs_no_growth {P : Platform} :
  forall (fuel : nat) (c : LogCall) (self : PmdkLogger) (w : World),
    valid_call c -> 0 <= now_off_ self ->
    now_off_ self + record_length c <= length_ self ->
    length_ self < two64 ->
    exists s,
      Logv fuel c self w = Ret s /\
      mmap_base_ (fst s) = mmap_base_ self /\
      length_ (fst s) = length_ self /\
      now_off_ (fst s) = now_off_ self + record_length c /\
      calls (snd s)
      = calls w
        ++ (if formatted_length c <=? kStackBufferSize - 2 then []
            else [EvNew (formatted_length c + 2)])
        ++ EvMemcpy (mmap_base_ self + now_off_ self) (record c)
                    PMEM_F_MEM_NONTEMPORAL
           :: (if formatted_length c <=? kStackBufferSize - 2 then []
               else [EvDelete]).
Proof.
  intros fuel c self w Hvalid Hoff Hfit Hlen.
  pose proof (record_length_nonneg c) as Hc0.
  rewrite Logv_eq by exact Hvalid.
  destruct (formatted_length c <=? kStackBufferSize - 2).
  - rewrite grow_loop_fits by lia. cbn [bind].
    destruct (written_fields false c (self, w))
      as (_ & Hb & Hl & Ho & Hcalls & _).
    cbn [fst snd] in *. eexists. split; [reflexivity |].
    rewrite Hb, Hl, Ho, Hcalls.
    rewrite wrap64_small by lia. repeat split.
  - rewrite grow_loop_fits by lia. cbn [bind].
    destruct (written_fields true c
                (self, emit (EvNew (formatted_length c + 2)) w))
      as (_ & Hb & Hl & Ho & Hcalls & _).
    cbn [fst snd] in *. eexists. split; [reflexivity |].
    rewrite Hb, Hl, Ho, Hcalls.
    rewrite wrap64_small by lia. unfold emit. cbn [calls].
    rewrite <- app_assoc. repeat split.
Qed.

Lemma fitting_record_needs_no_growth_witness :
  exists s,
    @Logv stalled_platform 0 sample_call fresh_logger empty_world = Ret s /\
    length_ (fst s) = 4096 /\
    calls (snd s)
    = [EvMemcpy 65536 (record sample_call) PMEM_F_MEM_NONTEMPORAL].
Proof.
  destruct (@fitting_record_needs_no_growth stalled_platform 0 sample_call
              fresh_logger empty_world)
    as (s & Hs & _ & Hl & _ & Hcalls).
  - split; [unfold valid_instant; cbn; lia
           | apply Z.leb_le; vm_compute; reflexivity].
  - cbn. lia.
  - apply Z.leb_le. vm_compute. reflexivity.
  - apply Z.ltb_lt. vm_compute. reflexivity.
  - exists s. split; [exact Hs |]. split; [exact Hl |].
    rewrite Hcalls. vm_compute. reflexivity.
Defined.

(** X4: the growth loop has no way out but a sufficient capacity.  If the
    record does not fit and the mapping service never reports a capacity
    that holds it, the append does not return, however long it runs. *)
Theorem append_never_returns_when_service_stalls {P : Platform} :
  forall (c : LogCall) (self : PmdkLogger) (w : World),
    valid_call c -> 0 <= now_off_ self ->
    now_off_ self + record_length c < two64 ->
    length_ self < now_off_ self + record_length c ->
    (forall tr path len flags mode,
       snd (pmem_map_file tr path len flags mode)
       < now_off_ self + record_length c) ->
    forall fuel : nat, Logv fuel c self w = NoFuel.
Proof.
  intros c self w Hvalid Hoff Hrange Hshort Hstall fuel.
  pose proof (record_length_nonneg c) as Hc0.
  rewrite Logv_eq by exact Hvalid.
  destruct (formatted_length c <=? kStackBufferSize - 2);
    rewrite (grow_loop_stalls (record_length c)
               (now_off_ self + record_length c) fuel Hstall)
      by (reflexivity || lia);
    reflexivity.
Qed.

Lemma append_never_returns_when_service_stalls_witness :
  @Logv stalled_platform 1000 sample_call reopened_logger empty_world
  = NoFuel.
Proof.
  apply (@append_never_returns_when_service_stalls stalled_platform).
  - split; [unfold valid_instant; cbn; lia
           | apply Z.leb_le; vm_compute; reflexivity].
  - cbn. lia.
  - apply Z.ltb_lt. vm_compute. reflexivity.
  - apply Z.ltb_lt. vm_compute. reflexivity.
  - intros tr path len flags mode. apply Z.ltb_lt. vm_compute. reflexivity.
Defined.

(** X5: under the contract of the mapping service an append runs at most
    64 rounds of growth, and at most one when its record is no longer
    than 32 MiB: [k] rounds leave [k - 1] increments short of what the
    record needs. *)
Theorem growth_rounds_are_bounded {P : Platform} :
  map_at_least ->
  forall (fuel : nat) (c : LogCall) (self : PmdkLogger) (w : World),
    (64 <= fuel)%nat -> valid_call c -> capacity_covers self ->
    now_off_ self + record_length c + kGrowth <= two64 ->
    exists (dynamic : bool) (w0 : World) (k : nat),
      Logv fuel c self w = Ret (written dynamic c (grow_n k self w0)) /\
      calls (snd (grow_n k self w0))
      = calls w0 ++ concat (map (growth_calls self w0) (seq 0 k)) /\
      Z.of_nat k * kGrowth < record_length c + kGrowth /\
      (k <= 64)%nat /\
      (record_length c <= kGrowth -> (k <= 1)%nat).
Proof.
  intros contract fuel c self w enough Hvalid Hcov Hrange.
  destruct (Logv_step fuel c self w _ _ contract Hvalid Hcov Hrange enough
              eq_refl eq_refl) as (k & _ & Hlogv & Hrun & _).
  set (dynamic := negb (formatted_length c <=? kStackBufferSize - 2)) in *.
  set (w0 := if dynamic then emit (EvNew (formatted_length c + 2)) w
             else w) in *.
  pose proof (record_length_nonneg c) as Hc0.
  pose proof (record_length_bounds c) as Hb.
  destruct (grow_n_capacity contract (record_length c) self w0 Hcov Hc0
              Hrange k Hrun) as (_ & Hcalls & _).
  assert (Z.of_nat k * kGrowth < record_length c + kGrowth) as Hk.
  { destruct k as [| k]; [rewrite kGrowth_value; lia |].
    destruct (grow_n_capacity contract (record_length c) self w0 Hcov Hc0
                Hrange k) as (Hcap & _);
      [intros j Hj; apply Hrun; lia |].
    pose proof (Hrun k (Nat.lt_succ_diag_r k)) as Hneed.
    destruct (grow_n_frame k self w0) as (_ & Ho & _).
    rewrite needs_growth_small in Hneed
      by (rewrite Ho; destruct Hcov; rewrite kGrowth_value in *; lia).
    rewrite Ho in Hneed. apply Z.ltb_lt in Hneed.
    destruct Hcov. rewrite kGrowth_value in *. lia. }
  exists dynamic, w0, k.
  split; [exact Hlogv |]. split; [exact Hcalls |]. split; [exact Hk |].
  destruct Hvalid as [_ Hint]. unfold INT_MAX in Hint.
  rewrite kGrowth_value in *. split; [lia | intros Hsmall; lia].
Qed.

Lemma growth_rounds_are_bounded_witness :
  exists dynamic w0 k,
    @Logv paged_platform 64 sample_call reopened_logger empty_world
    = Ret (written dynamic sample_call
             (@grow_n paged_platform k reopened_logger w0)) /\
    (k <= 1)%nat.
Proof.
  destruct (@growth_rounds_are_bounded paged_platform map_at_least_paged 64
              sample_call reopened_logger empty_world)
    as (dynamic & w0 & k & Hlogv & _ & _ & _ & Hone).
  - lia.
  - split; [unfold valid_instant; cbn; lia
           | apply Z.leb_le; vm_compute; reflexivity].
  - unfold capacity_covers. cbn. lia.
  - apply Z.leb_le. vm_compute. reflexivity.
  - exists dynamic, w0, k. split; [exact Hlogv |].
    apply Hone. apply Z.leb_le. vm_compute. reflexivity.
Defined.

(** ** Further properties of sequences of appends *)

Lemma load_app (m : Z -> ascii) (off : Z) (a b : nat) :
  load m off (a + b) = load m off a ++ load m (off + Z.of_nat a) b.
Proof.
  apply (nth_ext _ _ NUL NUL).
  - rewrite length_app, !load_length. reflexivity.
  - intros i Hi. rewrite load_length in Hi.
    rewrite load_nth by exact Hi.
    destruct (Nat.lt_ge_cases i a) as [Hlt | Hge].
    + rewrite app_nth1 by (rewrite load_length; exact Hlt).
      rewrite load_nth by exact Hlt. reflexivity.
    + rewrite app_nth2 by (rewrite load_length; exact Hge).
      rewrite load_length, load_nth by lia. f_equal. lia.
Qed.

Lemma concat_records_length (cs : list LogCall) :
  Z.of_nat (length (concat (map record cs))) = total_length cs.
Proof.
  induction cs as [| c cs IH]; [reflexivity |].
  cbn [map concat]. rewrite length_app, total_length_cons, record_length_eq.
  lia.
Qed.

(** Records that lie one after the other from [start] on make up the bytes
    from [start] on. *)
Lemma load_records (m : Z -> ascii) (cs : list LogCall) :
  forall start,
    (forall i c, nth_error cs i = Some c ->
       load m (start + total_length (firstn i cs)) (length (record c))
       = record c) ->
    load m start (length (concat (map record cs))) = concat (map record cs).
Proof.
  induction cs as [| c cs IH]; intros start H; [reflexivity |].
  cbn [map concat]. rewrite length_app, load_app. f_equal.
  - specialize (H O c eq_refl). cbn [firstn total_length] in H.
    rewrite Z.add_0_r in H. exact H.
  - apply IH. intros i c' Hnth.
    specialize (H (S i) c' Hnth). rewrite firstn_cons in H.
    rewrite total_length_cons, record_length_eq in H.
    replace (start + Z.of_nat (length (record c))
             + total_length (firstn i cs))
      with (start + (Z.of_nat (length (record c))
                     + total_length (firstn i cs))) by lia.
    exact H.
Qed.

(** X6: appends only append.  Over any sequence of appends the file name
    stays, the capacity and the logical offset never decrease, and every
    byte of the file outside the range from the old to the new logical
    offset keeps its value. *)
Theorem appends_only_append {P : Platform} :
  map_at_least ->
  forall (fuel : nat) (cs : list LogCall) (self : PmdkLogger) (w : World),
    (64 <= fuel)%nat -> Forall valid_call cs -> capacity_covers self ->
    now_off_ self + total_length cs + kGrowth <= two64 ->
    exists s,
      Logv_all fuel cs self w = Ret s /\
      filename_ (fst s) = filename_ self /\
      length_ self <= length_ (fst s) /\
      now_off_ self <= now_off_ (fst s) /\
      forall a,
        a < now_off_ self \/ now_off_ (fst s) <= a ->
        media (snd s) a = media w a.
Proof.
  intros contract fuel cs self w enough Hvalid Hcov Hrange.
  destruct (Logv_all_effect contract fuel enough cs self w Hvalid Hcov
              Hrange) as (s & Hs & Hf & Ho & _ & Hlen & Hframe & _).
  pose proof (total_length_nonneg cs) as Ht.
  exists s. split; [exact Hs |]. split; [exact Hf |].
  split; [exact Hlen |]. split; [lia |].
  intros a Ha. apply Hframe. lia.
Qed.

Lemma appends_only_append_witness :
  exists s,
    @Logv_all paged_platform 64 [sample_call; long_double_break_call]
              reopened_logger empty_world = Ret s /\
    100 <= length_ (fst s) /\
    forall a, a < 100 \/ now_off_ (fst s) <= a -> media (snd s) a = NUL.
Proof.
  destruct (@appends_only_append paged_platform map_at_least_paged 64
              [sample_call; long_double_break_call] reopened_logger
              empty_world) as (s & Hs & _ & Hl & _ & Hframe).
  - lia.
  - repeat constructor; try (cbn; lia); apply Z.leb_le; vm_compute;
      reflexivity.
  - unfold capacity_covers. cbn. lia.
  - apply Z.leb_le. vm_compute. reflexivity.
  - exists s. split; [exact Hs |]. split; [exact Hl |].
    intros a Ha. apply (Hframe a Ha).
Defined.

(** X7: after a sequence of appends the bytes of the file from the old
    logical offset to the new one are the records of the calls, one after
    the other in the order of the calls, and each of them ends in a line
    break. *)
Theorem log_is_the_records_in_order {P : Platform} :
  map_at_least ->
  forall (fuel : nat) (cs : list LogCall) (self : PmdkLogger) (w : World),
    (64 <= fuel)%nat -> Forall valid_call cs -> capacity_covers self ->
    now_off_ self + total_length cs + kGrowth <= two64 ->
    exists s,
      Logv_all fuel cs self w = Ret s /\
      now_off_ (fst s)
      = now_off_ self + Z.of_nat (length (concat (map record cs))) /\
      load (media (snd s)) (now_off_ self)
           (length (concat (map record cs)))
      = concat (map record cs) /\
      Forall (fun c => last (record c) NUL = LF) cs.
Proof.
  intros contract fuel cs self w enough Hvalid Hcov Hrange.
  destruct (Logv_all_effect contract fuel enough cs self w Hvalid Hcov
              Hrange) as (s & Hs & _ & Ho & _ & _ & _ & Hrec).
  exists s. split; [exact Hs |].
  split; [rewrite concat_records_length; exact Ho |].
  split; [apply load_records; exact Hrec |].
  apply Forall_forall. intros c _. apply record_ends_in_break.
Qed.

Lemma log_is_the_records_in_order_witness :
  exists s,
    @Logv_all (exact_platform false) 64 [sample_call; empty_call]
              fresh_logger empty_world = Ret s /\
    load (media (snd s)) 0 73
    = chars "2026/10/30-08:05:59.001234 140213 x=5" ++ [LF]
      ++ chars "2026/10/30-08:05:59.001234 140213 " ++ [LF].
Proof.
  destruct (@log_is_the_records_in_order (exact_platform false)
              (map_at_least_exact false) 64 [sample_call; empty_call]
              fresh_logger empty_world) as (s & Hs & _ & Hload & _).
  - lia.
  - repeat constructor; try (cbn; lia); apply Z.leb_le; vm_compute;
      reflexivity.
  - unfold capacity_covers. cbn. lia.
  - apply Z.leb_le. vm_compute. reflexivity.
  - exists s. split; [exact Hs |].
    change (now_off_ fresh_logger) with 0 in Hload.
    replace 73%nat
      with (length (concat (map record [sample_call; empty_call])))
      by (vm_compute; reflexivity).
    rewrite Hload. vm_compute. reflexivity.
Defined.

(** ** Disposal after appends, and reopening *)

Lemma map_exact_at_least {P : Platform} : map_exact -> map_at_least.
Proof.
  intros Hexact tr path len flags mode _. rewrite Hexact. lia.
Qed.

(** X8: disposal after a sequence of appends unmaps the mapping, maps the
    file again asking for the old logical offset plus the total length of
    the records plus one byte, and unmaps; it changes no byte of the
    file.  With a mapping service that reports the size asked for, the
    capacity left is that size. *)
Theorem disposal_after_appends {P : Platform} :
  map_at_least ->
  forall (fuel : nat) (cs : list LogCall) (self : PmdkLogger) (w : World),
    (64 <= fuel)%nat -> Forall valid_call cs -> capacity_covers self ->
    now_off_ self + total_length cs + kGrowth <= two64 ->
    exists s,
      Logv_all fuel cs self w = Ret s /\
      (mmap_base_ (fst s) <> 0 ->
       let size := now_off_ self + total_length cs + 1 in
       let remap :=
         pmem_map_file
           (calls (snd s)
            ++ [EvUnmap (mmap_base_ (fst s)) (length_ (fst s))])
           (filename_ self) size [PMEM_FILE_CREATE] mode_0666 in
       PmdkLogger_delete (fst s) (snd s)
       = (mkLogger (filename_ self) (fst remap) (snd remap)
                   (now_off_ self + total_length cs),
          mkWorld (calls (snd s)
                   ++ [EvUnmap (mmap_base_ (fst s)) (length_ (fst s));
                       EvMapFile (filename_ self) size
                                 [PMEM_FILE_CREATE] mode_0666;
                       EvUnmap (fst remap) (snd remap)])
                  (media (snd s))) /\
       size <= snd remap /\
       (map_exact -> snd remap = size)).
Proof.
  intros contract fuel cs self w enough Hvalid Hcov Hrange.
  destruct (Logv_all_effect contract fuel enough cs self w Hvalid Hcov
              Hrange) as (s & Hs & Hf & Ho & _).
  pose proof (total_length_nonneg cs) as Ht.
  exists s. split; [exact Hs |].
  intros Hbase. cbv zeta.
  rewrite (PmdkLogger_delete_live (fst s) (snd s) Hbase). cbv zeta.
  rewrite Hf, Ho.
  rewrite wrap64_small
    by (destruct Hcov; rewrite kGrowth_value in *; lia).
  split; [reflexivity |].
  split; [apply contract; destruct Hcov; lia |].
  intros Hexact. apply Hexact.
Qed.

Lemma disposal_after_appends_witness :
  exists s,
    @Logv_all (exact_platform false) 64 [sample_call; empty_call]
              reopened_logger empty_world = Ret s /\
    length_ (fst (@PmdkLogger_delete (exact_platform false)
                    (fst s) (snd s))) = 174.
Proof.
  destruct (@disposal_after_appends (exact_platform false)
              (map_at_least_exact false) 64 [sample_call; empty_call]
              reopened_logger empty_world) as (s & Hs & Hdel).
  - lia.
  - repeat constructor; try (cbn; lia); apply Z.leb_le; vm_compute;
      reflexivity.
  - unfold capacity_covers. cbn. lia.
  - apply Z.leb_le. vm_compute. reflexivity.
  - exists s. split; [exact Hs |].
    assert (mmap_base_ (fst s) = 65536) as Hbase.
    { apply (f_equal (fun o => match o with
                               | Ret x => mmap_base_ (fst x)
                               | _ => 0
                               end)) in Hs.
      cbv beta iota in Hs. rewrite <- Hs. vm_compute. reflexivity. }
    assert (mmap_base_ (fst s) <> 0) as Hlive by (rewrite Hbase; lia).
    clear Hbase. rename Hlive into Hbase.
    destruct (Hdel Hbase) as (-> & _ & Hexact).
    cbn [fst length_]. rewrite Hexact by apply map_exact_exact.
    vm_compute. reflexivity.
Defined.

(** X9: disposal sizes the file to the logical offset plus one byte, and
    reopening an existing region starts at its length.  With a mapping
    service that reports the size asked for, a logger reopened on the
    region that disposal left therefore starts one byte past the end of
    the log: its records follow from there and the byte in between is
    never written. *)
Theorem reopening_after_disposal_skips_a_byte {P : Platform} :
  map_exact ->
  forall (fuel : nat) (self : PmdkLogger) (w : World) (base : Z)
         (cs : list LogCall),
    (64 <= fuel)%nat -> mmap_base_ self <> 0 -> base <> 0 ->
    0 <= now_off_ self -> Forall valid_call cs ->
    now_off_ self + 1 + total_length cs + kGrowth <= two64 ->
    length_ (fst (PmdkLogger_delete self w)) = now_off_ self + 1 /\
    exists reopened s,
      PmdkLogger_new (filename_ self) base
                     (length_ (fst (PmdkLogger_delete self w))) true
      = Ret reopened /\
      now_off_ reopened = now_off_ self + 1 /\
      Logv_all fuel cs reopened (snd (PmdkLogger_delete self w)) = Ret s /\
      media (snd s) (now_off_ self) = media w (now_off_ self) /\
      forall i c, nth_error cs i = Some c ->
        load (media (snd s))
             (now_off_ self + 1 + total_length (firstn i cs))
             (length (record c))
        = record c.
Proof.
  intros Hexact fuel self w base cs enough Hlive Hbase Hoff Hvalid Hrange.
  pose proof (total_length_nonneg cs) as Ht.
  rewrite (PmdkLogger_delete_live self w Hlive). cbv zeta.
  cbn [fst snd length_]. rewrite Hexact.
  rewrite wrap64_small by (rewrite kGrowth_value in *; lia).
  split; [reflexivity |].
  set (L := now_off_ self + 1).
  set (w' := mkWorld _ (media w)).
  exists (mkLogger (filename_ self) base L L).
  destruct (Logv_all_effect (map_exact_at_least Hexact) fuel enough cs
              (mkLogger (filename_ self) base L L) w' Hvalid)
    as (s & Hs & _ & _ & _ & _ & Hframe & Hrec).
  { unfold capacity_covers. cbn [now_off_ length_]. subst L. lia. }
  { cbn [now_off_]. subst L. lia. }
  cbn [now_off_] in Hframe, Hrec.
  exists s.
  split; [apply (PmdkLogger_new_nonnull (filename_ self) base L true Hbase) |].
  split; [reflexivity |]. split; [exact Hs |].
  split; [| exact Hrec].
  rewrite Hframe by (subst L; lia). reflexivity.
Qed.

Lemma reopening_after_disposal_skips_a_byte_witness :
  exists reopened s,
    @PmdkLogger_new (exact_platform false) "LOG" 4096 101 true
    = Ret reopened /\
    now_off_ reopened = 101 /\
    @Logv_all (exact_platform false) 64 [sample_call] reopened
              (snd disposed_once) = Ret s /\
    media (snd s) 100 = NUL.
Proof.
  destruct (@reopening_after_disposal_skips_a_byte (exact_platform false)
              (map_exact_exact false) 64 reopened_logger empty_world 4096
              [sample_call])
    as (_ & reopened & s & Hnew & Ho & Hs & Hgap & _).
  - lia.
  - cbn. lia.
  - lia.
  - cbn. lia.
  - repeat constructor; try (cbn; lia); apply Z.leb_le; vm_compute;
      reflexivity.
  - apply Z.leb_le. vm_compute. reflexivity.
  - exists reopened, s. split; [exact Hnew |]. split; [exact Ho |].
    split; [exact Hs | exact Hgap].
Defined.

(** ** The header *)

Lemma chars_substring (n : nat) :
  forall s, chars (substring 0 n s) = firstn n (chars s).
Proof.
  induction n as [| n IH]; intros [| a s]; try reflexivity.
  cbn [substring chars list_ascii_of_string firstn]. f_equal. apply IH.
Qed.

Lemma chars_clip_thread_id (thread_id : string) :
  chars (clip_thread_id thread_id) = firstn 32 (chars thread_id).
Proof.
  unfold clip_thread_id, kMaxThreadIdSize.
  destruct (32 <? Z.of_nat (String.length thread_id)) eqn:E.
  - change (Z.to_nat 32) with 32%nat. apply chars_substring.
  - apply Z.ltb_ge in E. symmetry. apply firstn_all2.
    rewrite chars_length. lia.
Qed.

(** X10: at a valid time the header of every record is a stamp of the
    shape YYYY/MM/DD-HH:MM:SS.UUUUUU, a space, the first 32 characters of
    the thread id and a space: 28 characters and the thread id, at most 60
    in all, which is what [Logv] asserts and always fits the stack
    buffer. *)
Theorem header_layout :
  forall c : LogCall,
    valid_instant (c_now c) ->
    exists stamp,
      header c = stamp ++ SP :: firstn 32 (chars (c_thread c)) ++ [SP] /\
      has_shape stamp_pattern stamp = true /\
      Z.of_nat (length (header c))
      = 28 + Z.min 32 (Z.of_nat (String.length (c_thread c))) /\
      Z.of_nat (length (header c)) <= 28 + kMaxThreadIdSize /\
      Z.of_nat (length (header c)) < kStackBufferSize.
Proof.
  intros c Hv.
  destruct (header_shape (c_now c) (clip_thread_id (c_thread c)) Hv)
    as (stamp & Hhdr & Hlen & Hshape).
  rewrite header_eq, chars_clip_thread_id in Hhdr.
  assert (Z.of_nat (length (header c))
          = 28 + Z.min 32 (Z.of_nat (String.length (c_thread c)))) as Hl.
  { rewrite Hhdr, length_app. cbn [length]. rewrite length_app.
    cbn [length]. rewrite length_firstn, chars_length, Hlen. lia. }
  exists stamp. split; [exact Hhdr |]. split; [exact Hshape |].
  split; [exact Hl |].
  rewrite Hl. unfold kMaxThreadIdSize, kStackBufferSize. lia.
Qed.

Lemma header_layout_witness :
  exists stamp,
    header sample_call = stamp ++ chars " 140213 " /\
    has_shape stamp_pattern stamp = true.
Proof.
  destruct (header_layout sample_call) as (stamp & Hhdr & Hshape & _).
  - unfold valid_instant. cbn. lia.
  - exists stamp. split; [exact Hhdr | exact Hshape].
Defined.

(** X11: the stamp can be read back by position.  At a valid time the
    characters 0-3 of the header are the year, 5-6 the month, 8-9 the day,
    11-12 the hour, 14-15 the minute, 17-18 the second and 20-25 the
    microseconds, each in decimal with leading zeros. *)
Theorem stamp_reads_back_as_the_time :
  forall c : LogCall,
    valid_instant (c_now c) ->
    decimal_value (slice 0 4 (header c))
    = tm_year (now_components (c_now c)) + 1900 /\
    decimal_value (slice 5 2 (header c))
    = tm_mon (now_components (c_now c)) + 1 /\
    decimal_value (slice 8 2 (header c))
    = tm_mday (now_components (c_now c)) /\
    decimal_value (slice 11 2 (header c))
    = tm_hour (now_components (c_now c)) /\
    decimal_value (slice 14 2 (header c))
    = tm_min (now_components (c_now c)) /\
    decimal_value (slice 17 2 (header c))
    = tm_sec (now_components (c_now c)) /\
    decimal_value (slice 20 6 (header c)) = tv_usec (c_now c).
Proof.
  intros c (Hy & Hmo & Hd & Hh & Hmi & Hs & Hu).
  rewrite <- header_eq, header_unfold.
  destruct (fmt_d_width 3 4 10000 (tm_year (now_components (c_now c)) + 1900))
    as [Ly _]; [reflexivity | reflexivity | lia |].
  destruct (fmt_d_width 1 2 100 (tm_mon (now_components (c_now c)) + 1))
    as [Lmo _]; [reflexivity | reflexivity | lia |].
  destruct (fmt_d_width 1 2 100 (tm_mday (now_components (c_now c))))
    as [Ld _]; [reflexivity | reflexivity | lia |].
  destruct (fmt_d_width 1 2 100 (tm_hour (now_components (c_now c))))
    as [Lh _]; [reflexivity | reflexivity | lia |].
  destruct (fmt_d_width 1 2 100 (tm_min (now_components (c_now c))))
    as [Lmi _]; [reflexivity | reflexivity | lia |].
  destruct (fmt_d_width 1 2 100 (tm_sec (now_components (c_now c))))
    as [Ls _]; [reflexivity | reflexivity | lia |].
  destruct (fmt_d_width 5 6 1000000 (tv_usec (c_now c)))
    as [Lu _]; [reflexivity | reflexivity | lia |].
  pose proof (fmt_d_value 4 (tm_year (now_components (c_now c)) + 1900)
                ltac:(lia)) as Vy.
  pose proof (fmt_d_value 2 (tm_mon (now_components (c_now c)) + 1)
                ltac:(lia)) as Vmo.
  pose proof (fmt_d_value 2 (tm_mday (now_components (c_now c)))
                ltac:(lia)) as Vd.
  pose proof (fmt_d_value 2 (tm_hour (now_components (c_now c)))
                ltac:(lia)) as Vh.
  pose proof (fmt_d_value 2 (tm_min (now_components (c_now c)))
                ltac:(lia)) as Vmi.
  pose proof (fmt_d_value 2 (tm_sec (now_components (c_now c)))
                ltac:(lia)) as Vs.
  pose proof (fmt_d_value 6 (tv_usec (c_now c)) ltac:(lia)) as Vu.
  set (y := fmt_d true 4 _) in *. set (mo := fmt_d true 2 _) in *.
  set (d := fmt_d true 2 (tm_mday _)) in *.
  set (h := fmt_d true 2 (tm_hour _)) in *.
  set (mi := fmt_d true 2 (tm_min _)) in *.
  set (s := fmt_d true 2 (tm_sec _)) in *.
  set (u := fmt_d true 6 _) in *.
  set (tail := SP :: fmt_s 0 (clip_thread_id (c_thread c)) ++ [SP]).
  repeat split.
  - match goal with
    | |- decimal_value (slice _ _ ?l) = _ =>
        replace l with (([]) ++ y ++ "/"%char :: mo ++ "/"%char :: d ++ "-"%char :: h ++ ":"%char :: mi ++ ":"%char :: s ++ "."%char :: u ++ tail)
          by (repeat (rewrite <- app_assoc; cbn [app]); reflexivity)
    end.
    rewrite slice_field; [exact Vy | | exact Ly].
    repeat (rewrite length_app; cbn [length]).
    reflexivity.
  - match goal with
    | |- decimal_value (slice _ _ ?l) = _ =>
        replace l with ((y ++ ["/"%char]) ++ mo ++ "/"%char :: d ++ "-"%char :: h ++ ":"%char :: mi ++ ":"%char :: s ++ "."%char :: u ++ tail)
          by (repeat (rewrite <- app_assoc; cbn [app]); reflexivity)
    end.
    rewrite slice_field; [exact Vmo | | exact Lmo].
    repeat (rewrite length_app; cbn [length]).
    rewrite Ly. reflexivity.
  - match goal with
    | |- decimal_value (slice _ _ ?l) = _ =>
        replace l with ((y ++ "/"%char :: mo ++ ["/"%char]) ++ d ++ "-"%char :: h ++ ":"%char :: mi ++ ":"%char :: s ++ "."%char :: u ++ tail)
          by (repeat (rewrite <- app_assoc; cbn [app]); reflexivity)
    end.
    rewrite slice_field; [exact Vd | | exact Ld].
    repeat (rewrite length_app; cbn [length]).
    rewrite Ly, Lmo. reflexivity.
  - match goal with
    | |- decimal_value (slice _ _ ?l) = _ =>
        replace l with ((y ++ "/"%char :: mo ++ "/"%char :: d ++ ["-"%char]) ++ h ++ ":"%char :: mi ++ ":"%char :: s ++ "."%char :: u ++ tail)
          by (repeat (rewrite <- app_assoc; cbn [app]); reflexivity)
    end.
    rewrite slice_field; [exact Vh | | exact Lh].
    repeat (rewrite length_app; cbn [length]).
    rewrite Ly, Lmo, Ld. reflexivity.
  - match goal with
    | |- decimal_value (slice _ _ ?l) = _ =>
        replace l with ((y ++ "/"%char :: mo ++ "/"%char :: d ++ "-"%char :: h ++ [":"%char]) ++ mi ++ ":"%char :: s ++ "."%char :: u ++ tail)
          by (repeat (rewrite <- app_assoc; cbn [app]); reflexivity)
    end.
    rewrite slice_field; [exact Vmi | | exact Lmi].
    repeat (rewrite length_app; cbn [length]).
    rewrite Ly, Lmo, Ld, Lh. reflexivity.
  - match goal with
    | |- decimal_value (slice _ _ ?l) = _ =>
        replace l with ((y ++ "/"%char :: mo ++ "/"%char :: d ++ "-"%char :: h ++ ":"%char :: mi ++ [":"%char]) ++ s ++ "."%char :: u ++ tail)
          by (repeat (rewrite <- app_assoc; cbn [app]); reflexivity)
    end.
    rewrite slice_field; [exact Vs | | exact Ls].
    repeat (rewrite length_app; cbn [length]).
    rewrite Ly, Lmo, Ld, Lh, Lmi. reflexivity.
  - match goal with
    | |- decimal_value (slice _ _ ?l) = _ =>
        replace l with ((y ++ "/"%char :: mo ++ "/"%char :: d ++ "-"%char :: h ++ ":"%char :: mi ++ ":"%char :: s ++ ["."%char]) ++ u ++ tail)
          by (repeat (rewrite <- app_assoc; cbn [app]); reflexivity)
    end.
    rewrite slice_field; [exact Vu | | exact Lu].
    repeat (rewrite length_app; cbn [length]).
    rewrite Ly, Lmo, Ld, Lh, Lmi, Ls. reflexivity.
Qed.

Lemma stamp_reads_back_as_the_time_witness :
  decimal_value (slice 0 4 (header sample_call)) = 2026 /\
  decimal_value (slice 20 6 (header sample_call)) = 1234.
Proof.
  destruct (stamp_reads_back_as_the_time sample_call)
    as (Hy & _ & _ & _ & _ & _ & Hu).
  - unfold valid_instant. cbn. lia.
  - split; [exact Hy | exact Hu].
Defined.
